(** * reduce_image_size.py: the image shrinker and the folder walker

    A shallow embedding of [src/reduce_image_size.py].

    - Python [str] values (paths, file names, ledger lines) are [string]s; a
      character is a code point in the range 0..255. Paths are POSIX paths.
    - The file system is a finite map from path strings to file contents; the
      directory structure below the walked root is a [dirtree], which the
      program never changes (it creates and removes files only). The files
      that [os.walk] lists for a folder are read off the file map.
    - Every function of the source that touches the disk is a computation in
      the monad [io]: it reads and updates the file map, may raise a Python
      exception, and emits the sequence of observable events it performs.
    - Pillow is a parameter: decoding may fail, encoding is a total function
      of the image, the path and the quality.
    - The worker pool runs the tasks of a folder after the folder's scan, one
      after the other and each to its end, in an order that is a parameter
      of the model; an exception stays in its future until the walker asks
      for the result. *)

From Stdlib Require Import ZArith String Ascii List Lia Permutation.
From Equations Require Import Equations.
From stdpp Require Import base option list gmap strings.

Local Open Scope Z_scope.

(** ** Python string methods *)

Module PyStr.

(** [s.startswith(pre)], returning the remainder of [s] as well. *)
Fixpoint strip_prefix (pre s : string) : option string :=
  match pre, s with
  | EmptyString, _ => Some s
  | String a pre', String b s' =>
      if Ascii.eqb a b then strip_prefix pre' s' else None
  | String _ _, EmptyString => None
  end.

Definition startswith (s pre : string) : bool :=
  match strip_prefix pre s with Some _ => true | None => false end.

(** [s.endswith(suf)]: some tail of [s] is [suf]. *)
Fixpoint endswith (s suf : string) : bool :=
  String.eqb s suf ||
  match s with
  | EmptyString => false
  | String _ s' => endswith s' suf
  end.

(** [c in s] for a single character. *)
Fixpoint contains (c : ascii) (s : string) : bool :=
  match s with
  | EmptyString => false
  | String a s' => Ascii.eqb a c || contains c s'
  end.

(** [s.rfind(c)] for a single character: the last index, or -1. *)
Fixpoint rfind (c : ascii) (s : string) : Z :=
  match s with
  | EmptyString => -1
  | String a s' =>
      let r := rfind c s' in
      if 0 <=? r then r + 1 else if Ascii.eqb a c then 0 else -1
  end.

(** [s[i:j]] and [s[i:]] for indices within range. *)
Definition slice (s : string) (i j : Z) : string :=
  String.substring (Z.to_nat i) (Z.to_nat (j - i)) s.

Definition slice_from (s : string) (i : Z) : string :=
  String.substring (Z.to_nat i) (String.length s - Z.to_nat i) s.

(** [str.lower] on code points 0..255: the letters A-Z and the accented
    capitals 192..222 (the multiplication sign 215 apart) move up by 32. *)
Definition lower_char (c : ascii) : ascii :=
  let n := nat_of_ascii c in
  if ((65 <=? n)%nat && (n <=? 90)%nat)
     || ((192 <=? n)%nat && (n <=? 222)%nat && negb (n =? 215)%nat)
  then ascii_of_nat (n + 32) else c.

Fixpoint lower (s : string) : string :=
  match s with
  | EmptyString => EmptyString
  | String a s' => String (lower_char a) (lower s')
  end.

(** The line boundaries of [str.splitlines] among the code points 0..255:
    LF, VT, FF, CR, FS, GS, RS and NEL. *)
Definition is_linebreak (c : ascii) : bool :=
  match nat_of_ascii c with
  | 10%nat | 11%nat | 12%nat | 13%nat | 28%nat | 29%nat | 30%nat | 133%nat => true
  | _ => false
  end.

Definition is_cr (c : ascii) : bool := Ascii.eqb c "013"%char.
Definition is_lf (c : ascii) : bool := Ascii.eqb c "010"%char.

(** Put a character in front of the first line of a list of lines. *)
Definition push_char (c : ascii) (lines : list string) : list string :=
  match lines with
  | [] => [String c EmptyString]
  | l :: ls => String c l :: ls
  end.

(** [s.splitlines()]. The flag [after_cr] says that the previous character
    was a CR, so that a LF met now belongs to the same boundary. *)
Fixpoint splitlines_from (after_cr : bool) (s : string) : list string :=
  match s with
  | EmptyString => []
  | String c rest =>
      if after_cr && is_lf c then splitlines_from false rest
      else if is_linebreak c then EmptyString :: splitlines_from (is_cr c) rest
      else push_char c (splitlines_from false rest)
  end.

Definition splitlines (s : string) : list string := splitlines_from false s.

Fixpoint last_char (s : string) : option ascii :=
  match s with
  | EmptyString => None
  | String a EmptyString => Some a
  | String _ s' => last_char s'
  end.

End PyStr.

(** ** [os.path] (POSIX flavour) *)

Module OsPath.
Import PyStr.

(** [os.path.join(a, b)]. *)
Definition join (a b : string) : string :=
  if startswith b "/" then b
  else if String.eqb a "" || endswith a "/" then a +:+ b
  else a +:+ "/" +:+ b.

(** The text [join] puts in front of a relative name. *)
Definition dir_prefix (a : string) : string :=
  if String.eqb a "" || endswith a "/" then a else a +:+ "/".

(** The scan over the leading dots: [true] when [s] holds dots only. *)
Fixpoint all_dots (s : string) : bool :=
  match s with
  | EmptyString => true
  | String a s' => Ascii.eqb a "."%char && all_dots s'
  end.

(** [os.path.splitext(p)]: the extension starts at the last dot of the last
    path component, leading dots of that component not counting. *)
Definition splitext (p : string) : string * string :=
  let sepIndex := rfind "/"%char p in
  let dotIndex := rfind "."%char p in
  if (sepIndex <? dotIndex) && negb (all_dots (slice p (sepIndex + 1) dotIndex))
  then (slice p 0 dotIndex, slice_from p dotIndex)
  else (p, "").

End OsPath.

(** ** The [io] monad: file map, exceptions and events *)

Inductive exn : Type :=
  | FileNotFoundError (path : string)
  | UnidentifiedImageError (path : string).

Inductive outcome (A : Type) : Type :=
  | Returned (a : A)
  | Raised (e : exn).
Arguments Returned {A} a.
Arguments Raised {A} e.

(** What a run does that the claims talk about. *)
Inductive event : Type :=
  | EvSave (path : string) (quality : Z)     (* img.save(path, quality=..) *)
  | EvVisit (folder : string)                (* os.walk yields the folder *)
  | EvScan (folder : string)                 (* the file names of the folder are looked at *)
  | EvSubmit (folder path : string)          (* executor.submit(reduce_image_size, path, ..) *)
  | EvRun (path : string)                    (* a worker starts the task for path *)
  | EvAppend (folder : string).              (* the folder is written to the ledger *)

Abbreviation files := (gmap string string).

Definition io (A : Type) : Type := files → outcome A * files * list event.

Definition io_ret {A} (a : A) : io A := λ fs, (Returned a, fs, []).

Definition io_bind {A B} (f : A → io B) (m : io A) : io B :=
  λ fs,
    match m fs with
    | (Returned a, fs1, t1) =>
        match f a fs1 with
        | (r, fs2, t2) => (r, fs2, t1 ++ t2)
        end
    | (Raised e, fs1, t1) => (Raised e, fs1, t1)
    end.

Definition raise {A} (e : exn) : io A := λ fs, (Raised e, fs, []).
Definition emit (ev : event) : io unit := λ fs, (Returned tt, fs, [ev]).

#[global] Instance io_mret : MRet io := @io_ret.
#[global] Instance io_mbind : MBind io := @io_bind.

Definition result_of {A} (x : outcome A * files * list event) : outcome A := x.1.1.
Definition files_of {A} (x : outcome A * files * list event) : files := x.1.2.
Definition trace_of {A} (x : outcome A * files * list event) : list event := x.2.

(** ** File-system primitives *)

Module Os.

Definition size_of (content : string) : Z := Z.of_nat (String.length content).

(** [os.path.getsize(path)] *)
Definition getsize (path : string) : io Z :=
  λ fs, match fs !! path with
        | Some c => (Returned (size_of c), fs, [])
        | None => (Raised (FileNotFoundError path), fs, [])
        end.

(** [os.remove(path)] *)
Definition remove (path : string) : io unit :=
  λ fs, match fs !! path with
        | Some _ => (Returned tt, delete path fs, [])
        | None => (Raised (FileNotFoundError path), fs, [])
        end.

(** [os.rename(src, dst)]: an existing [dst] file is replaced. *)
Definition rename (src dst : string) : io unit :=
  λ fs, match fs !! src with
        | Some c => (Returned tt, <[dst := c]> (delete src fs), [])
        | None => (Raised (FileNotFoundError src), fs, [])
        end.

(** [os.path.isfile(path)] *)
Definition isfile (path : string) : io bool :=
  λ fs, (Returned (bool_decide (is_Some (fs !! path))), fs, []).

(** [open(path, "r").read()] *)
Definition read_text (path : string) : io string :=
  λ fs, match fs !! path with
        | Some c => (Returned c, fs, [])
        | None => (Raised (FileNotFoundError path), fs, [])
        end.

(** [open(path, "a").write(text)]: the file is created when missing. *)
Definition append_text (path text : string) : io unit :=
  λ fs, (Returned tt, <[path := default "" (fs !! path) +:+ text]> fs, []).

End Os.

(** The directories below the walked root: each folder lists its subfolders by
    name. *)
#[local] Unset Elimination Schemes.
Inductive dirtree : Type :=
  | Dir (subfolders : list (string * dirtree)).
#[local] Set Elimination Schemes.

(** ** A small Pillow, for running the program on concrete disks

    A file is an image when it starts with the letter P (a PNG) or J (a
    JPEG); the rest of the file is its detail. Encoding at quality [q] writes
    a JPEG of [10 + q] bytes. *)

Module Toy.

Definition image : Type := string * nat.

Fixpoint pad (n : nat) : string :=
  match n with
  | O => EmptyString
  | S k => String "x"%char (pad k)
  end.

Definition png (detail : nat) : string := String "P"%char (pad detail).
Definition jpeg (detail : nat) : string := String "J"%char (pad detail).

Definition decode (content : string) : option image :=
  match content with
  | String "P"%char rest => Some ("PNG", String.length rest)
  | String "J"%char rest => Some ("JPEG", String.length rest)
  | _ => None
  end.

Definition img_format (img : image) : string := img.1.
Definition convert_rgb (img : image) : image := img.
Definition encode (img : image) (path : string) (quality : Z) : string :=
  jpeg (9 + Z.to_nat quality).

(** Tasks complete in the order of their submission. *)
Definition completion_order (tasks : list string) : list string := tasks.

(** A disk with one JPEG of 101 bytes, and one with one PNG of 101 bytes. *)
Definition disk_jpeg : files := {[ "a.jpg" := jpeg 100 ]}.
Definition disk_png : files := {[ "a.png" := png 100 ]}.

(** The folders [root], [root/a], [root/b] and [root/b/c]. *)
Definition tree : dirtree :=
  Dir [("a", Dir []); ("b", Dir [("c", Dir [])])].

(** [root/a] holds a large PNG next to a small JPEG of the same stem,
    [root/b] a small JPEG, [root/b/c] a large JPEG. *)
Definition disk_photos : files :=
  {[ "root/a/img1.png" := png 100;
     "root/a/img1.jpg" := jpeg 10;
     "root/b/img2.jpg" := jpeg 10;
     "root/b/c/deep.jpeg" := jpeg 100 ]}.

(** [root/a] holds a file of 100 bytes that is called [x.jpg] but is no
    image. *)
Definition disk_corrupt : files :=
  {[ "root/a/x.jpg" := pad 100;
     "root/b/img2.jpg" := jpeg 10 ]}.

(** A PNG of 101 bytes next to a JPEG of the same stem, of 101 bytes on the
    first disk and of 11 bytes on the second. *)
Definition disk_pair : files := {[ "a.png" := png 100; "a.jpg" := jpeg 100 ]}.
Definition disk_small_pair : files := {[ "a.png" := png 100; "a.jpg" := jpeg 10 ]}.

(** The photo disk with a ledger that lists [root/a]. *)
Definition disk_marked : files :=
  <[ "root/.processed_folders.txt"
       := String.append "root/a" (String "010"%char EmptyString) ]> disk_photos.

(** A disk on which no image has more than 60 bytes. *)
Definition disk_small : files :=
  {[ "root/a/s.png" := png 10; "root/b/img2.jpg" := jpeg 10 ]}.

(** A disk whose ledger was cut short by hand: it does not end with a
    newline. *)
Definition disk_cut_ledger : files :=
  {[ "root/.processed_folders.txt" := "x" ]}.

(** A root folder whose name holds a carriage return. *)
Definition odd_root : string :=
  String "r"%char (String "013"%char (String "t"%char EmptyString)).

End Toy.

Section Program.

(** ** The image shrinker *)

(** Pillow is outside the repository. A decoded image is a value of type
    [Image]; [decode] is what [Image.open] makes of a file's bytes ([None]
    when they are no image), [img_format] is [img.format], [convert_rgb] is
    [img.convert('RGB')], and [encode img path q] is the content that
    [img.save(path, optimize=True, quality=q)] writes. *)
Variable Image : Type.
Variable decode : string → option Image.
Variable img_format : Image → string.
Variable convert_rgb : Image → Image.
Variable encode : Image → string → Z → string.

(** [Image.open(path)] *)
Definition image_open (path : string) : io Image :=
  λ fs, match fs !! path with
        | None => (Raised (FileNotFoundError path), fs, [])
        | Some c =>
            match decode c with
            | Some img => (Returned img, fs, [])
            | None => (Raised (UnidentifiedImageError path), fs, [])
            end
        end.

(** [img.save(path, optimize=True, quality=quality)] *)
Definition image_save (img : Image) (path : string) (quality : Z) : io unit :=
  λ fs, (Returned tt, <[path := encode img path quality]> fs, [EvSave path quality]).

(** The [while] loop of lines 29-32, on the local variables
    [original_size] and [quality], whose final values it returns. *)
Equations? shrink_loop (img : Image) (new_file_path : string)
    (max_size original_size quality : Z) : io (Z * Z)
    by wf (Z.to_nat quality) lt :=
  shrink_loop img new_file_path max_size original_size quality
    with decide (max_size < original_size ∧ 0 < quality) := {
    | left _ =>
        image_save img new_file_path (quality - 5);;
        size ← Os.getsize new_file_path;
        shrink_loop img new_file_path max_size size (quality - 5)
    | right _ => mret (original_size, quality) }.
Proof. lia. Qed.

(** Lines 20-24: the working path and the image that is encoded. *)
Definition working_copy (file_path : string) (img : Image) : string * Image :=
  if String.eqb (img_format img) "PNG"
  then ((OsPath.splitext file_path).1 +:+ ".jpg", convert_rgb img)
  else (file_path, img).

(** The [with Image.open(file_path) as img:] block, lines 19-32. It leaves
    [new_file_path] behind for the statements that follow it. *)
Definition shrink_phase (file_path : string) (max_size : Z) : io string :=
  img ← image_open file_path;
  let '(new_file_path, img) := working_copy file_path img in
  original_size ← Os.getsize new_file_path;
  let quality := 80 in
  shrink_loop img new_file_path max_size original_size quality;;
  mret new_file_path.

(** The [if]/[else] of lines 34-38. *)
Definition replace_phase (file_path new_file_path : string) (max_size : Z) : io unit :=
  size ← Os.getsize new_file_path;
  if max_size <? size
  then Os.remove new_file_path
  else (Os.remove file_path;; Os.rename new_file_path file_path).

Definition reduce_image_size (file_path : string) (max_size : Z) : io unit :=
  new_file_path ← shrink_phase file_path max_size;
  replace_phase file_path new_file_path max_size.

(** ** The folder walker *)

Definition newline : string := String "010"%char EmptyString.

(** [filename.lower().endswith(('.png', '.jpg', '.jpeg'))] *)
Definition is_image_name (filename : string) : bool :=
  let l := PyStr.lower filename in
  PyStr.endswith l ".png" || PyStr.endswith l ".jpg" || PyStr.endswith l ".jpeg".

(** [any(foldername.endswith(folder) for folder in excluded_folders)] *)
Definition is_excluded (excluded_folders : list string) (foldername : string) : bool :=
  existsb (λ folder, PyStr.endswith foldername folder) excluded_folders.

(** [foldername in processed_folders] *)
Definition in_ledger (processed_folders : list string) (foldername : string) : bool :=
  existsb (String.eqb foldername) processed_folders.

(** The name under which [key] is listed in [folder]: the key is the
    folder's prefix followed by a non-empty name without separator. *)
Definition entry_name (folder key : string) : option string :=
  match PyStr.strip_prefix (OsPath.dir_prefix folder) key with
  | Some name =>
      if String.eqb name "" || PyStr.contains "/"%char name then None else Some name
  | None => None
  end.

(** The [filenames] that [os.walk] yields for a folder: the files directly
    in it, in the order of the directory scan. *)
Definition listdir_files (folder : string) : io (list string) :=
  λ fs, (Returned (omap (entry_name folder) (map_to_list fs).*1), fs, []).

(** Lines 56-60: the ledger is read once. *)
Definition load_ledger (processed_file : string) : io (list string) :=
  b ← Os.isfile processed_file;
  if b : bool
  then text ← Os.read_text processed_file; mret (PyStr.splitlines text)
  else mret [].

(** Lines 70-74: the loop over [filenames], returning [futures]. *)
Fixpoint scan_files (foldername : string) (max_size : Z) (filenames : list string)
    : io (list string) :=
  match filenames with
  | [] => mret []
  | filename :: rest =>
      if is_image_name filename then
        let file_path := OsPath.join foldername filename in
        size ← Os.getsize file_path;
        if max_size <? size then
          emit (EvSubmit foldername file_path);;
          futures ← scan_files foldername max_size rest;
          mret (file_path :: futures)
        else scan_files foldername max_size rest
      else scan_files foldername max_size rest
  end.

(** The worker pool. A task is the path it was submitted for. The tasks of
    a folder run one after the other, each to its end, in the order
    [completion_order] gives them; the exception a task raises is kept in
    its future, and what it did to the files stays. *)
Variable completion_order : list string → list string.
Hypothesis completion_order_perm : ∀ tasks, completion_order tasks ≡ₚ tasks.

Definition run_task (max_size : Z) (file_path : string) : io (outcome unit) :=
  λ fs,
    match reduce_image_size file_path max_size fs with
    | (r, fs', t) => (Returned r, fs', EvRun file_path :: t)
    end.

Fixpoint run_pool (max_size : Z) (tasks : list string) : io (list (outcome unit)) :=
  match tasks with
  | [] => mret []
  | task :: rest =>
      r ← run_task max_size task;
      rs ← run_pool max_size rest;
      mret (r :: rs)
  end.

(** Lines 76-77: [future.result()] re-raises what the task raised. *)
Fixpoint collect_results (results : list (outcome unit)) : io unit :=
  match results with
  | [] => mret tt
  | Returned _ :: rest => collect_results rest
  | Raised e :: _ => raise e
  end.

(** Lines 69-80: the body for a folder that is not in the ledger. Leaving
    the [with] block of the executor waits for every submitted task, so
    the whole batch runs before an exception travels on. *)
Definition process_folder (processed_file foldername : string)
    (filenames : list string) (max_size : Z) : io unit :=
  emit (EvScan foldername);;
  futures ← scan_files foldername max_size filenames;
  results ← run_pool max_size (completion_order futures);
  collect_results results;;
  emit (EvAppend foldername);;
  Os.append_text processed_file (foldername +:+ newline).

(** A [for] loop over a list: an exception in the body ends it. *)
Fixpoint for_each {A} (body : A → io unit) (items : list A) : io unit :=
  match items with
  | [] => mret tt
  | x :: rest => body x;; for_each body rest
  end.

(** Lines 64-80: the body of the [for] loop over [os.walk], for the folder
    [foldername]. The result says whether [subfolders] was left as it was
    ([true]) or emptied ([false], the excluded case). *)
Definition visit_folder (processed_file : string)
    (excluded_folders processed_folders : list string) (max_size : Z)
    (foldername : string) : io bool :=
  filenames ← listdir_files foldername;
  emit (EvVisit foldername);;
  if is_excluded excluded_folders foldername then mret false
  else
    (if in_ledger processed_folders foldername then mret tt
     else process_folder processed_file foldername filenames max_size);;
    mret true.

(** Line 63: [os.walk] top-down: a folder, then the subfolders that the body
    has left in the list, each with its joined path. *)
Fixpoint walk (processed_file : string) (excluded_folders processed_folders : list string)
    (max_size : Z) (tree : dirtree) (foldername : string) : io unit :=
  match tree with
  | Dir subfolders =>
      descend ← visit_folder processed_file excluded_folders processed_folders
                  max_size foldername;
      if descend : bool then
        for_each
          (λ '(name, sub),
             walk processed_file excluded_folders processed_folders max_size
               sub (OsPath.join foldername name))
          subfolders
      else mret tt
  end.

Definition ledger_path (root_folder : string) : string :=
  OsPath.join root_folder ".processed_folders.txt".

Definition process_images (tree : dirtree) (root_folder : string)
    (excluded_folders : list string) (max_size : Z) : io unit :=
  let processed_file := ledger_path root_folder in
  processed_folders ← load_ledger processed_file;
  walk processed_file excluded_folders processed_folders max_size tree root_folder.

(** ** Reference notions used by the statements *)

(** Every folder of the tree, under the path [os.walk] would give it. *)
Fixpoint all_folders (tree : dirtree) (path : string) : list string :=
  match tree with
  | Dir subfolders =>
      path :: flat_map (λ '(name, sub), all_folders sub (OsPath.join path name)) subfolders
  end.

(** A folder name as a directory holds it: not empty and without
    separator. *)
Definition component (name : string) : bool :=
  negb (String.eqb name "") && negb (PyStr.contains "/"%char name).

(** A directory tree as a file system holds it: the names of the subfolders
    of a folder are path components and differ from one another. *)
Fixpoint well_formed (tree : dirtree) : bool :=
  match tree with
  | Dir subfolders =>
      bool_decide (NoDup subfolders.*1)
      && forallb (λ '(name, sub), component name && well_formed sub) subfolders
  end.

(** [f] is the path [p] or a path below it. *)
Definition below_path (p f : string) : Prop :=
  f = p ∨ ∃ rest, f = p +:+ "/" +:+ rest.

(** The folders that the walk reaches: it does not go below a folder whose
    path is excluded. *)
Fixpoint visited_folders (excluded_folders : list string) (tree : dirtree)
    (path : string) : list string :=
  match tree with
  | Dir subfolders =>
      path ::
      if is_excluded excluded_folders path then []
      else flat_map (λ '(name, sub),
                       visited_folders excluded_folders sub (OsPath.join path name))
             subfolders
  end.

(** The folders that are reached and not excluded. *)
Definition live_folders (excluded_folders : list string) (tree : dirtree)
    (path : string) : list string :=
  filter (λ f, is_excluded excluded_folders f = false)
    (visited_folders excluded_folders tree path).

(** The folders that lie below a folder whose path is excluded; [under] says
    that such a folder has been met on the way down. *)
Fixpoint below_excluded (excluded_folders : list string) (under : bool)
    (tree : dirtree) (path : string) : list string :=
  match tree with
  | Dir subfolders =>
      (if under then [path] else []) ++
      flat_map (λ '(name, sub),
                  below_excluded excluded_folders
                    (under || is_excluded excluded_folders path)
                    sub (OsPath.join path name))
        subfolders
  end.

(** A file lies directly in a folder under a name: the name is a single path
    component and the joined path is a file. *)
Definition directly_in (fs : files) (folder name : string) : Prop :=
  name ≠ "" ∧ PyStr.contains "/"%char name = false
  ∧ is_Some (fs !! OsPath.join folder name).

(** The paths for which a trace submits a task, in order. *)
Definition submitted (t : list event) : list string :=
  omap (λ ev, match ev with EvSubmit _ p => Some p | _ => None end) t.

(** The tasks that a trace starts, in order. *)
Definition started (t : list event) : list string :=
  omap (λ ev, match ev with EvRun p => Some p | _ => None end) t.

(** A line-boundary character occurs in the string. *)
Fixpoint has_linebreak (s : string) : bool :=
  match s with
  | EmptyString => false
  | String c rest => PyStr.is_linebreak c || has_linebreak rest
  end.

(** The ledger file is missing, empty, or ends with a newline. *)
Definition ledger_terminated (fs : files) (processed_file : string) : bool :=
  match fs !! processed_file with
  | None => true
  | Some text => String.eqb text "" || PyStr.endswith text newline
  end.

(** The qualities below [quality], five apart: [n] of them. *)
Fixpoint countdown (n : nat) (quality : Z) : list Z :=
  match n with
  | O => []
  | S k => (quality - 5) :: countdown k (quality - 5)
  end.

(** 75, 70, ..., 5, 0 *)
Definition encode_qualities : list Z := countdown 16 80.

(** The qualities of the encodes of a trace, in order. *)
Definition save_qualities (t : list event) : list Z :=
  omap (λ ev, match ev with EvSave _ q => Some q | _ => None end) t.

(** The file names that the scan finds too large: image names whose joined
    path is a file of more than [max_size] bytes. *)
Definition oversized (fs : files) (folder : string) (max_size : Z) (name : string) : bool :=
  is_image_name name &&
  match fs !! OsPath.join folder name with
  | Some c => max_size <? Os.size_of c
  | None => false
  end.

(** The tasks submitted for a folder, in the order of the file names. *)
Definition futures_of (fs : files) (folder : string) (max_size : Z)
    (names : list string) : list string :=
  OsPath.join folder <$> filter (λ n, oversized fs folder max_size n = true) names.

(** The events of a task: its start and its encodes. *)
Definition save_event (ev : event) : Prop :=
  match ev with EvSave _ _ => True | _ => False end.

Definition task_event (ev : event) : Prop :=
  match ev with EvSave _ _ | EvRun _ => True | _ => False end.

(** Paths that end in g or G: the image files and their [.jpg] siblings. *)
Definition image_path (path : string) : Prop :=
  ∃ c, PyStr.last_char path = Some c ∧ PyStr.lower_char c = "g"%char.

(** The text is empty or ends with a newline. *)
Definition terminated (text : string) : Prop :=
  text = "" ∨ ∃ pre, text = pre +:+ newline.

(** The lines that [load_ledger] makes of the ledger file. *)
Definition ledger_lines (fs : files) (processed_file : string) : list string :=
  match fs !! processed_file with
  | Some text => PyStr.splitlines text
  | None => []
  end.

(** An event of a walk over the folders [visited]: a folder is yielded only
    if it is among them, and looked into only if it is not excluded. *)
Definition walk_event (excluded : list string) (visited : list string)
    (ev : event) : Prop :=
  match ev with
  | EvVisit f => f ∈ visited
  | EvScan f | EvSubmit f _ | EvAppend f => f ∈ visited ∧ is_excluded excluded f = false
  | EvSave _ _ | EvRun _ => True
  end.

(** ** Further reference notions *)

(** The path ends in g or G, as a boolean. *)
Definition is_image_path (path : string) : bool :=
  match PyStr.last_char path with
  | Some c => Ascii.eqb (PyStr.lower_char c) "g"%char
  | None => false
  end.

(** The text of the ledger file, empty when the file is missing. *)
Definition ledger_text (fs : files) (processed_file : string) : string :=
  default "" (fs !! processed_file).

(** The text that appending the folders one by one writes. *)
Fixpoint lines_text (folders : list string) : string :=
  match folders with
  | [] => ""
  | f :: rest => f +:+ newline +:+ lines_text rest
  end.

(** The folders that a trace writes to the ledger, in order. *)
Definition appended (t : list event) : list string :=
  omap (λ ev, match ev with EvAppend f => Some f | _ => None end) t.

(** The folders that a walk has to process, in the order of the walk: those
    it reaches that are neither excluded nor in the loaded ledger. *)
Fixpoint to_process (excluded_folders processed_folders : list string)
    (tree : dirtree) (path : string) : list string :=
  match tree with
  | Dir subfolders =>
      if is_excluded excluded_folders path then []
      else
        (if in_ledger processed_folders path then [] else [path]) ++
        flat_map (λ '(name, sub),
                    to_process excluded_folders processed_folders sub
                      (OsPath.join path name))
          subfolders
  end.

(** The file names listed for a folder. *)
Definition listing (fs : files) (folder : string) : list string :=
  omap (entry_name folder) (map_to_list fs).*1.

(** No file listed for the folder is an image of more than [max_size]
    bytes. *)
Definition quiet_folder (fs : files) (max_size : Z) (folder : string) : bool :=
  forallb (λ name, negb (oversized fs folder max_size name)) (listing fs folder).

(** The folders that a trace visits, in order. *)
Definition visits (t : list event) : list string :=
  omap (λ ev, match ev with EvVisit f => Some f | _ => None end) t.

(** An event that does not scan, submit for, or append the folder [f]. *)
Definition spares_folder (f : string) (ev : event) : Prop :=
  ev ≠ EvScan f ∧ ev ≠ EvAppend f ∧ ∀ path, ev ≠ EvSubmit f path.

(** An event of the walker itself, not of a task. *)
Definition walker_event (ev : event) : Prop :=
  match ev with
  | EvVisit _ | EvScan _ | EvAppend _ => True
  | EvSubmit _ _ | EvRun _ | EvSave _ _ => False
  end.

(** ** Facts about the monad *)

Lemma bind_run {A B} (m : io A) (f : A → io B) (fs : files) :
  (m ≫= f) fs =
  match m fs with
  | (Returned a, fs1, t1) =>
      match f a fs1 with
      | (r, fs2, t2) => (r, fs2, t1 ++ t2)
      end
  | (Raised e, fs1, t1) => (Raised e, fs1, t1)
  end.
Proof. reflexivity. Qed.

Lemma shrink_loop_step img nfp max_size size quality fs :
  shrink_loop img nfp max_size size quality fs =
  if decide (max_size < size ∧ 0 < quality)
  then
    match shrink_loop img nfp max_size (Os.size_of (encode img nfp (quality - 5)))
            (quality - 5) (<[nfp := encode img nfp (quality - 5)]> fs) with
    | (r, fs2, t2) => (r, fs2, EvSave nfp (quality - 5) :: t2)
    end
  else (Returned (size, quality), fs, []).
Proof.
  rewrite shrink_loop_equation_1.
  destruct (decide _) as [H|H]; simpl; [|reflexivity].
  rewrite bind_run. unfold image_save at 1. rewrite bind_run.
  unfold Os.getsize at 1. rewrite lookup_insert_eq.
  by destruct (shrink_loop _ _ _ _ _ _) as [[r fs2] t2].
Qed.

(** What the loop does when it starts at a quality [5 * k]: it encodes at the
    first [n] qualities below, stops at the first encode that fits or at
    quality 0, and leaves every other file alone. *)
Lemma shrink_loop_run img nfp max_size (k : nat) :
  ∀ size fs, ∃ (n : nat) size' fs',
    shrink_loop img nfp max_size size (5 * Z.of_nat k) fs
    = (Returned (size', 5 * Z.of_nat k - 5 * Z.of_nat n), fs',
       EvSave nfp <$> take n (countdown k (5 * Z.of_nat k)))
    ∧ (n ≤ k)%nat
    ∧ (max_size < size' → n = k)
    ∧ (n = 0%nat → fs' = fs ∧ size' = size)
    ∧ (n ≠ 0%nat →
         max_size < size
         ∧ fs' = <[nfp := encode img nfp (5 * Z.of_nat k - 5 * Z.of_nat n)]> fs
         ∧ size' = Os.size_of (encode img nfp (5 * Z.of_nat k - 5 * Z.of_nat n)))
    ∧ Forall (λ q, max_size < Os.size_of (encode img nfp q))
        (take (n - 1) (countdown k (5 * Z.of_nat k))).
Proof.
  induction k as [|k IH]; intros size fs; rewrite shrink_loop_step.
  - rewrite decide_False by lia.
    exists 0%nat, size, fs. simpl. repeat split; try done; try lia.
  - destruct (decide _) as [[Hsize _]|Hstop].
    + replace (5 * Z.of_nat (S k) - 5) with (5 * Z.of_nat k) by lia.
      destruct (IH (Os.size_of (encode img nfp (5 * Z.of_nat k)))
                  (<[nfp := encode img nfp (5 * Z.of_nat k)]> fs))
        as (n & size' & fs' & -> & Hle & Hbig & Hzero & Hpos & Hall).
      exists (S n), size', fs'. simpl.
      replace (5 * Z.of_nat (S k) - 5) with (5 * Z.of_nat k) by lia.
      replace (5 * Z.of_nat (S k) - 5 * Z.of_nat (S n))
        with (5 * Z.of_nat k - 5 * Z.of_nat n) by lia.
      split; [done|]. split; [lia|]. split; [intros; f_equal; auto|].
      split; [done|]. split.
      * intros _. split; [done|]. destruct n as [|n].
        -- destruct (Hzero eq_refl) as [-> ->].
           by replace (5 * Z.of_nat k - 5 * Z.of_nat 0) with (5 * Z.of_nat k) by lia.
        -- destruct Hpos as (_ & -> & ->); [done|].
           by rewrite insert_insert_eq.
      * destruct n as [|n]; simpl; [constructor|].
        replace (S n - 1)%nat with n in Hall by lia. constructor; [|done].
        by destruct Hpos as (? & _).
    + exists 0%nat, size, fs. simpl.
      replace (5 * Z.of_nat (S k) - 5 * Z.of_nat 0) with (5 * Z.of_nat (S k)) by lia.
      repeat split; try done; try lia.
Qed.

Lemma save_qualities_saves path (qs : list Z) :
  save_qualities (EvSave path <$> qs) = qs.
Proof. induction qs as [|q qs IH]; [done|]. cbn. f_equal. exact IH. Qed.

Lemma save_qualities_app (t1 t2 : list event) :
  save_qualities (t1 ++ t2) = save_qualities t1 ++ save_qualities t2.
Proof. apply omap_app. Qed.

(** The loop as [reduce_image_size] starts it, at quality 80. *)
Lemma shrink_loop_from_80 img nfp max_size size fs :
  ∃ (n : nat) size' fs',
    shrink_loop img nfp max_size size 80 fs
    = (Returned (size', 80 - 5 * Z.of_nat n), fs', EvSave nfp <$> take n encode_qualities)
    ∧ (n ≤ 16)%nat
    ∧ (max_size < size' → n = 16%nat)
    ∧ (n = 0%nat → fs' = fs ∧ size' = size)
    ∧ (n ≠ 0%nat →
         max_size < size
         ∧ fs' = <[nfp := encode img nfp (80 - 5 * Z.of_nat n)]> fs
         ∧ size' = Os.size_of (encode img nfp (80 - 5 * Z.of_nat n)))
    ∧ Forall (λ q, max_size < Os.size_of (encode img nfp q))
        (take (n - 1) encode_qualities).
Proof. exact (shrink_loop_run img nfp max_size 16 size fs). Qed.

(** The [with] block, case by case. *)
Lemma shrink_phase_run file_path max_size fs :
  shrink_phase file_path max_size fs =
  match fs !! file_path with
  | None => (Raised (FileNotFoundError file_path), fs, [])
  | Some c =>
      match decode c with
      | None => (Raised (UnidentifiedImageError file_path), fs, [])
      | Some img0 =>
          match fs !! (working_copy file_path img0).1 with
          | None => (Raised (FileNotFoundError (working_copy file_path img0).1), fs, [])
          | Some c' =>
              match shrink_loop (working_copy file_path img0).2
                      (working_copy file_path img0).1 max_size (Os.size_of c') 80 fs with
              | (Returned _, fs', t) => (Returned (working_copy file_path img0).1, fs', t)
              | (Raised e, fs', t) => (Raised e, fs', t)
              end
          end
      end
  end.
Proof.
  unfold shrink_phase. rewrite bind_run. unfold image_open at 1.
  destruct (fs !! file_path) as [c|]; [|done].
  destruct (decode c) as [img0|]; [|done].
  destruct (working_copy file_path img0) as [nfp img]. simpl.
  rewrite bind_run. unfold Os.getsize at 1.
  destruct (fs !! nfp) as [c'|]; [|done].
  rewrite bind_run.
  destruct (shrink_loop _ _ _ _ _ _) as [[[?|?] ?] ?]; simpl; by rewrite ?app_nil_r.
Qed.

(** Every file but the working one is left alone by the loop, and the working
    file is still there afterwards. *)
Lemma shrink_loop_frame img nfp max_size size fs :
  ∀ p, p ≠ nfp → files_of (shrink_loop img nfp max_size size 80 fs) !! p = fs !! p.
Proof.
  intros p Hp.
  destruct (shrink_loop_from_80 img nfp max_size size fs)
    as (n & size' & fs' & -> & _ & _ & Hzero & Hpos & _).
  unfold files_of; simpl. destruct n as [|n].
  - by destruct (Hzero eq_refl) as [-> _].
  - destruct Hpos as (_ & -> & _); [done|]. by rewrite lookup_insert_ne.
Qed.


(** ** Facts about strings and paths *)

Lemma str_app_cons (a : ascii) (s t : string) : String a s +:+ t = String a (s +:+ t).
Proof. reflexivity. Qed.

Lemma str_app_nil_l (s : string) : "" +:+ s = s.
Proof. reflexivity. Qed.

Lemma str_app_nil_r (s : string) : s +:+ "" = s.
Proof. induction s as [|a s IH]; [done|]. by rewrite str_app_cons, IH. Qed.

Lemma str_app_assoc (s1 s2 s3 : string) : (s1 +:+ s2) +:+ s3 = s1 +:+ s2 +:+ s3.
Proof. induction s1 as [|a s1 IH]; [done|]. by rewrite !str_app_cons, IH. Qed.

Lemma strip_prefix_Some (pre s r : string) :
  PyStr.strip_prefix pre s = Some r ↔ s = pre +:+ r.
Proof.
  revert s. induction pre as [|a pre IH]; intros s; simpl.
  - rewrite str_app_nil_l. split; congruence.
  - rewrite str_app_cons. destruct s as [|b s]; [split; discriminate|].
    destruct (Ascii.eqb_spec a b) as [->|Hne].
    + rewrite IH. split; congruence.
    + split; [discriminate|]. intros [=]; congruence.
Qed.

Lemma strip_prefix_app (pre r : string) : PyStr.strip_prefix pre (pre +:+ r) = Some r.
Proof. by apply strip_prefix_Some. Qed.

Lemma endswith_unfold (s suf : string) :
  PyStr.endswith s suf =
  String.eqb s suf
  || match s with EmptyString => false | String _ s' => PyStr.endswith s' suf end.
Proof. by destruct s. Qed.

Lemma endswith_spec (s suf : string) :
  PyStr.endswith s suf = true ↔ ∃ pre, s = pre +:+ suf.
Proof.
  induction s as [|a s IH]; rewrite endswith_unfold.
  - rewrite orb_false_r, String.eqb_eq. split.
    + intros <-. by exists "".
    + intros [[|??] H]; [done|by rewrite str_app_cons in H].
  - rewrite orb_true_iff, String.eqb_eq, IH. split.
    + intros [<-|[pre ->]]; [by exists ""|by exists (String a pre)].
    + intros [[|b pre] H]; [by left|].
      rewrite str_app_cons in H. injection H as -> ->. right. by exists pre.
Qed.

Lemma last_char_app (a b : string) :
  b ≠ "" → PyStr.last_char (a +:+ b) = PyStr.last_char b.
Proof.
  intros Hb. induction a as [|c a IH]; [done|].
  rewrite str_app_cons. simpl. destruct (a +:+ b) eqn:Hab; [|done].
  destruct a; [by rewrite str_app_nil_l in Hab|by rewrite str_app_cons in Hab].
Qed.

Lemma last_char_lower (s : string) :
  PyStr.last_char (PyStr.lower s) = PyStr.lower_char <$> PyStr.last_char s.
Proof.
  induction s as [|c s IH]; [done|].
  simpl. destruct s as [|d s]; [done|]. exact IH.
Qed.

Lemma last_char_endswith (s suf : string) :
  suf ≠ "" → PyStr.endswith s suf = true → PyStr.last_char s = PyStr.last_char suf.
Proof.
  intros Hsuf [pre ->]%endswith_spec. by apply last_char_app.
Qed.

Lemma join_relative (a b : string) :
  PyStr.startswith b "/" = false → OsPath.join a b = OsPath.dir_prefix a +:+ b.
Proof.
  intros Hb. unfold OsPath.join, OsPath.dir_prefix. rewrite Hb.
  destruct (_ || _); [done|]. by rewrite str_app_assoc.
Qed.

Lemma no_slash_relative (name : string) :
  PyStr.contains "/"%char name = false → PyStr.startswith name "/" = false.
Proof.
  intros H. destruct name as [|c name]; [done|].
  change (PyStr.contains "/" (String c name))
    with (Ascii.eqb c "/" || PyStr.contains "/" name) in H.
  apply orb_false_iff in H as [Hc _]. unfold PyStr.startswith.
  change (PyStr.strip_prefix "/" (String c name))
    with (if Ascii.eqb "/" c then PyStr.strip_prefix "" name else None).
  by rewrite Ascii.eqb_sym, Hc.
Qed.

Lemma join_last_char (a b : string) :
  b ≠ "" → PyStr.last_char (OsPath.join a b) = PyStr.last_char b.
Proof.
  intros Hb. unfold OsPath.join.
  destruct (PyStr.startswith b "/"); [done|].
  destruct (_ || _); [by apply last_char_app|].
  rewrite <- str_app_assoc. by apply last_char_app.
Qed.

(** An image name ends in g or G; [join] keeps the end of the name. *)
Lemma image_name_last_char (name : string) :
  is_image_name name = true →
  ∃ c, PyStr.last_char name = Some c ∧ PyStr.lower_char c = "g"%char.
Proof.
  unfold is_image_name. intros H.
  assert (Hlast : PyStr.last_char (PyStr.lower name) = Some "g"%char).
  { apply orb_true_iff in H as [H|H]; [apply orb_true_iff in H as [H|H]|];
      apply last_char_endswith in H; done. }
  rewrite last_char_lower in Hlast.
  destruct (PyStr.last_char name) as [c|]; [|done].
  exists c. split; [done|]. by injection Hlast.
Qed.

Lemma entry_name_Some (folder key name : string) :
  entry_name folder key = Some name ↔
  key = OsPath.join folder name ∧ name ≠ "" ∧ PyStr.contains "/"%char name = false.
Proof.
  unfold entry_name. split.
  - destruct (PyStr.strip_prefix _ key) as [r|] eqn:Hr; [|done].
    apply strip_prefix_Some in Hr.
    destruct (String.eqb_spec r "") as [->|Hne]; [done|]. simpl.
    destruct (PyStr.contains "/" r) eqn:Hslash; [done|].
    intros [= <-]. by rewrite join_relative by by apply no_slash_relative.
  - intros (-> & Hne & Hslash).
    rewrite join_relative by by apply no_slash_relative.
    rewrite strip_prefix_app, Hslash.
    by destruct (String.eqb_spec name "").
Qed.

(** ** Facts about the walker's parts *)

Lemma flat_map_elem_of {A B} (f : A → list B) (l : list A) (y : B) :
  y ∈ flat_map f l ↔ ∃ x, x ∈ l ∧ y ∈ f x.
Proof.
  rewrite list_elem_of_In, in_flat_map. split.
  - intros (x & Hx & Hy). exists x. by rewrite !list_elem_of_In.
  - intros (x & Hx & Hy). exists x. by rewrite <- !list_elem_of_In.
Qed.

Lemma dirtree_induction (P : dirtree → Prop) :
  (∀ subs, Forall (λ entry, P entry.2) subs → P (Dir subs)) → ∀ tree, P tree.
Proof.
  intros Hstep. fix IH 1. intros [subs]. apply Hstep.
  induction subs as [|[name sub] subs IHsubs]; constructor; [apply IH|exact IHsubs].
Qed.

Lemma scan_files_run folder max_size names fs :
  (∀ name, name ∈ names → is_Some (fs !! OsPath.join folder name)) →
  scan_files folder max_size names fs
  = (Returned (OsPath.join folder <$> filter (λ n, oversized fs folder max_size n = true) names),
     fs,
     EvSubmit folder <$> (OsPath.join folder <$>
                            filter (λ n, oversized fs folder max_size n = true) names)).
Proof.
  induction names as [|name names IH]; intros Hin; [done|].
  assert (Hrest : ∀ n, n ∈ names → is_Some (fs !! OsPath.join folder n))
    by (intros; apply Hin; by right).
  specialize (IH Hrest).
  destruct (Hin name) as [c Hc]; [by left|].
  cbn [scan_files]. rewrite filter_cons.
  destruct (decide (oversized fs folder max_size name = true)) as [Hover|Hover];
    unfold oversized in Hover; rewrite Hc in Hover.
  - apply andb_true_iff in Hover as [-> Hsize].
    rewrite bind_run. unfold Os.getsize at 1. rewrite Hc, Hsize.
    rewrite bind_run. unfold emit at 1. cbv beta iota.
    rewrite bind_run, IH. simpl. by rewrite app_nil_r.
  - destruct (is_image_name name); [|exact IH].
    rewrite bind_run. unfold Os.getsize at 1. rewrite Hc.
    destruct (max_size <? Os.size_of c); [done|]. simpl. by rewrite IH.
Qed.

Lemma listdir_files_run folder fs :
  listdir_files folder fs
  = (Returned (omap (entry_name folder) (map_to_list fs).*1), fs, []).
Proof. reflexivity. Qed.

Lemma listing_directly_in (fs : files) folder name :
  name ∈ omap (entry_name folder) (map_to_list fs).*1 ↔ directly_in fs folder name.
Proof.
  rewrite list_elem_of_omap. unfold directly_in. split.
  - intros (key & Hkey & (-> & Hne & Hslash)%entry_name_Some).
    repeat split; [done..|].
    apply list_elem_of_fmap in Hkey as ([k v] & -> & Hkv).
    apply elem_of_map_to_list in Hkv. simpl. eauto.
  - intros (Hne & Hslash & [c Hc]).
    exists (OsPath.join folder name). split.
    + apply list_elem_of_fmap. exists (OsPath.join folder name, c).
      split; [done|]. by apply elem_of_map_to_list.
    + by apply entry_name_Some.
Qed.




(** *** What a task does *)

Lemma working_copy_path file_path img :
  (working_copy file_path img).1 = file_path
  ∨ (working_copy file_path img).1 = (OsPath.splitext file_path).1 +:+ ".jpg".
Proof. unfold working_copy. destruct (String.eqb _ _); simpl; auto. Qed.

Lemma replace_phase_frame file_path nfp max_size fs p :
  p ≠ file_path → p ≠ nfp →
  files_of (replace_phase file_path nfp max_size fs) !! p = fs !! p.
Proof.
  intros Hfp Hnfp. unfold replace_phase. rewrite bind_run.
  unfold Os.getsize at 1. destruct (fs !! nfp) as [c|] eqn:Hc; [|done].
  destruct (max_size <? Os.size_of c).
  - unfold Os.remove. rewrite Hc. unfold files_of; simpl.
    by rewrite lookup_delete_ne.
  - rewrite bind_run. unfold Os.remove at 1.
    destruct (fs !! file_path) as [c0|]; [|done].
    unfold Os.rename. destruct (delete file_path fs !! nfp) as [c1|];
      unfold files_of; simpl.
    + by rewrite lookup_insert_ne, !lookup_delete_ne.
    + by rewrite lookup_delete_ne.
Qed.

Lemma replace_phase_quiet file_path nfp max_size fs :
  trace_of (replace_phase file_path nfp max_size fs) = [].
Proof.
  unfold replace_phase. rewrite bind_run.
  unfold Os.getsize at 1. destruct (fs !! nfp) as [c|] eqn:Hc; [|done].
  destruct (max_size <? Os.size_of c).
  - unfold Os.remove. by rewrite Hc.
  - rewrite bind_run. unfold Os.remove at 1.
    destruct (fs !! file_path) as [c0|]; [|done].
    unfold Os.rename. by destruct (delete file_path fs !! nfp).
Qed.

(** A task changes its own file and the [.jpg] sibling at most. *)
Lemma reduce_image_size_frame file_path max_size fs p :
  p ≠ file_path → p ≠ (OsPath.splitext file_path).1 +:+ ".jpg" →
  files_of (reduce_image_size file_path max_size fs) !! p = fs !! p.
Proof.
  intros Hfp Hsib. unfold reduce_image_size. rewrite bind_run, shrink_phase_run.
  destruct (fs !! file_path) as [c|]; [|done].
  destruct (decode c) as [img0|]; [|done].
  assert (Hnfp : p ≠ (working_copy file_path img0).1)
    by (destruct (working_copy_path file_path img0) as [-> | ->]; done).
  destruct (fs !! (working_copy file_path img0).1) as [c'|]; [|done].
  pose proof (shrink_loop_frame (working_copy file_path img0).2
                (working_copy file_path img0).1 max_size (Os.size_of c') fs p Hnfp) as Hloop.
  destruct (shrink_loop _ _ _ _ _ _) as [[[?|?] fs1] t1]; unfold files_of in Hloop;
    simpl in Hloop; [|done].
  pose proof (replace_phase_frame file_path (working_copy file_path img0).1
                max_size fs1 p Hfp Hnfp) as Hrep.
  destruct (replace_phase _ _ _ _) as [[r fs2] t2]. unfold files_of in *; simpl in *.
  congruence.
Qed.

Lemma reduce_image_size_trace file_path max_size fs :
  Forall save_event (trace_of (reduce_image_size file_path max_size fs)).
Proof.
  unfold reduce_image_size. rewrite bind_run, shrink_phase_run.
  destruct (fs !! file_path) as [c|]; [|constructor].
  destruct (decode c) as [img0|]; [|constructor].
  destruct (fs !! (working_copy file_path img0).1) as [c'|]; [|constructor].
  destruct (shrink_loop_from_80 (working_copy file_path img0).2
              (working_copy file_path img0).1 max_size (Os.size_of c') fs)
    as (n & size' & fs' & -> & _).
  pose proof (replace_phase_quiet file_path (working_copy file_path img0).1
                max_size fs') as Hquiet.
  destruct (replace_phase _ _ _ _) as [[r fs2] t2]. unfold trace_of in *; simpl in *.
  subst t2. rewrite app_nil_r. apply Forall_fmap, Forall_true. done.
Qed.

Lemma joined_image_path folder name :
  is_image_name name = true → image_path (OsPath.join folder name).
Proof.
  intros Himg. destruct (image_name_last_char name Himg) as (c & Hc & Hg).
  exists c. split; [|done]. rewrite join_last_char; [done|].
  by destruct name.
Qed.

(** A task for an image path leaves every path that ends in t alone. *)
Lemma task_spares file_path max_size fs p :
  image_path file_path → PyStr.last_char p = Some "t"%char →
  files_of (reduce_image_size file_path max_size fs) !! p = fs !! p.
Proof.
  intros (c & Hc & Hg) Hp. apply reduce_image_size_frame.
  - intros ->. rewrite Hp in Hc. injection Hc as <-. done.
  - intros ->. rewrite last_char_app in Hp by done. done.
Qed.

Lemma run_task_run max_size file_path fs :
  run_task max_size file_path fs
  = (Returned (result_of (reduce_image_size file_path max_size fs)),
     files_of (reduce_image_size file_path max_size fs),
     EvRun file_path :: trace_of (reduce_image_size file_path max_size fs)).
Proof. unfold run_task. by destruct (reduce_image_size _ _ _) as [[r fs'] t]. Qed.

Lemma run_pool_run max_size tasks :
  ∀ fs, ∃ results fs2 t,
    run_pool max_size tasks fs = (Returned results, fs2, t)
    ∧ started t = tasks
    ∧ Forall task_event t
    ∧ (∀ p, Forall image_path tasks → PyStr.last_char p = Some "t"%char →
            fs2 !! p = fs !! p).
Proof.
  induction tasks as [|task tasks IH]; intros fs.
  - exists [], fs, []. repeat split; first [done|constructor].
  - cbn [run_pool]. rewrite bind_run, run_task_run.
    destruct (IH (files_of (reduce_image_size task max_size fs)))
      as (results & fs2 & t & Hrun & Hstarted & Hevents & Hframe).
    rewrite bind_run, Hrun.
    eexists (_ :: results), fs2, _. split; [reflexivity|]. simpl. repeat split.
    + rewrite app_nil_r. unfold started in *. cbn. f_equal.
      rewrite omap_app, Hstarted.
      assert (Hnone : omap (λ ev, match ev with EvRun p => Some p | _ => None end)
                        (trace_of (reduce_image_size task max_size fs)) = []).
      { pose proof (reduce_image_size_trace task max_size fs) as Hsaves.
        induction Hsaves as [|ev l Hev _ IHl]; [done|].
        cbn. destruct ev; try done. }
      by rewrite Hnone.
    + rewrite app_nil_r. constructor; [done|]. apply Forall_app. split; [|done].
      eapply Forall_impl; [apply reduce_image_size_trace|]. by intros [].
    + intros p Htasks Hp. apply Forall_cons in Htasks as [Htask Htasks].
      rewrite (Hframe p Htasks Hp). by apply task_spares.
Qed.

Lemma collect_results_cases results fs :
  (Forall (λ r, r = Returned tt) results
   ∧ collect_results results fs = (Returned tt, fs, []))
  ∨ (∃ e, Raised e ∈ results ∧ collect_results results fs = (Raised e, fs, [])).
Proof.
  induction results as [|[[]|e] results IH].
  - left. split; [constructor|done].
  - destruct IH as [[Hall Hrun]|(e & He & Hrun)].
    + left. split; [by constructor|done].
    + right. exists e. split; [by right|done].
  - right. exists e. split; [by left|done].
Qed.

(** *** What the loop body does for one folder *)

Lemma process_folder_cases processed_file folder names max_size fs :
  (∀ name, name ∈ names → is_Some (fs !! OsPath.join folder name)) →
  ∃ results fs2 trun,
    run_pool max_size (completion_order (futures_of fs folder max_size names)) fs
    = (Returned results, fs2, trun)
    ∧ ((Forall (λ r, r = Returned tt) results
        ∧ process_folder processed_file folder names max_size fs
          = (Returned tt,
             <[processed_file := default "" (fs2 !! processed_file) +:+ folder +:+ newline]> fs2,
             EvScan folder :: (EvSubmit folder <$> futures_of fs folder max_size names)
               ++ trun ++ [EvAppend folder]))
       ∨ (∃ e, Raised e ∈ results
          ∧ process_folder processed_file folder names max_size fs
            = (Raised e, fs2,
               EvScan folder :: (EvSubmit folder <$> futures_of fs folder max_size names)
                 ++ trun))).
Proof.
  intros Hpresent.
  destruct (run_pool_run max_size (completion_order (futures_of fs folder max_size names)) fs)
    as (results & fs2 & trun & Hrun & _).
  exists results, fs2, trun. split; [exact Hrun|].
  assert (Hbody : process_folder processed_file folder names max_size fs
                  = match (collect_results results;;
                           emit (EvAppend folder);;
                           Os.append_text processed_file (folder +:+ newline)) fs2 with
                    | (r, fs3, t3) =>
                        (r, fs3,
                         EvScan folder
                           :: (EvSubmit folder <$> futures_of fs folder max_size names)
                           ++ trun ++ t3)
                    end).
  { unfold process_folder. rewrite bind_run. unfold emit at 1. cbv beta iota.
    rewrite bind_run, (scan_files_run _ _ _ _ Hpresent).
    fold (futures_of fs folder max_size names). rewrite bind_run, Hrun.
    by destruct ((collect_results results;; _) fs2) as [[r fs3] t3]. }
  rewrite Hbody, bind_run.
  destruct (collect_results_cases results fs2) as [[Hall ->]|(e & He & ->)].
  - left. split; [done|]. rewrite bind_run. unfold emit at 1. cbv beta iota.
    unfold Os.append_text. simpl. by rewrite ?app_nil_r.
  - right. exists e. split; [done|]. by rewrite ?app_nil_r.
Qed.

Lemma visit_folder_run processed_file excluded processed max_size folder fs :
  visit_folder processed_file excluded processed max_size folder fs =
  if is_excluded excluded folder then (Returned false, fs, [EvVisit folder])
  else if in_ledger processed folder then (Returned true, fs, [EvVisit folder])
  else
    match process_folder processed_file folder
            (omap (entry_name folder) (map_to_list fs).*1) max_size fs with
    | (Returned _, fs', t) => (Returned true, fs', EvVisit folder :: t)
    | (Raised e, fs', t) => (Raised e, fs', EvVisit folder :: t)
    end.
Proof.
  unfold visit_folder. rewrite bind_run, listdir_files_run.
  rewrite bind_run. unfold emit at 1. cbv beta iota.
  destruct (is_excluded excluded folder); [done|].
  rewrite bind_run. destruct (in_ledger processed folder); [done|].
  destruct (process_folder _ _ _ _ _) as [[[?|?] ?] ?]; simpl; by rewrite ?app_nil_r.
Qed.

Lemma listing_present (fs : files) folder name :
  name ∈ omap (entry_name folder) (map_to_list fs).*1 →
  is_Some (fs !! OsPath.join folder name).
Proof. by intros (_ & _ & ?)%listing_directly_in. Qed.








(** *** Distinct folders have distinct paths *)

Lemma str_length_app (a b : string) :
  String.length (a +:+ b) = (String.length a + String.length b)%nat.
Proof. induction a as [|c a IH]; [done|]. rewrite str_app_cons. simpl. by rewrite IH. Qed.

Lemma component_spec (name : string) :
  component name = true ↔ name ≠ "" ∧ PyStr.contains "/"%char name = false.
Proof.
  unfold component. rewrite andb_true_iff, !negb_true_iff, String.eqb_neq. done.
Qed.

Lemma contains_cons c a (s : string) :
  PyStr.contains c (String a s) = Ascii.eqb a c || PyStr.contains c s.
Proof. reflexivity. Qed.

Lemma last_char_no_slash (name : string) :
  name ≠ "" → PyStr.contains "/"%char name = false →
  ∃ c, PyStr.last_char name = Some c ∧ c ≠ "/"%char.
Proof.
  induction name as [|a name IH]; [done|]. intros _.
  rewrite contains_cons. intros [Ha Hname]%orb_false_iff.
  destruct name as [|b name].
  - exists a. split; [done|]. by apply Ascii.eqb_neq.
  - destruct IH as (c & Hc & Hne); [done..|]. by exists c.
Qed.

Lemma dir_prefix_cases (a : string) :
  OsPath.dir_prefix a = a ∨ OsPath.dir_prefix a = a +:+ "/".
Proof. unfold OsPath.dir_prefix. destruct (_ || _); auto. Qed.

Lemma dir_prefix_plain (p : string) c :
  PyStr.last_char p = Some c → c ≠ "/"%char → OsPath.dir_prefix p = p +:+ "/".
Proof.
  intros Hc Hne. unfold OsPath.dir_prefix.
  destruct (String.eqb_spec p "") as [->|_]; [done|]. simpl.
  destruct (PyStr.endswith p "/") eqn:Hend; [|done].
  apply last_char_endswith in Hend; [|done]. rewrite Hc in Hend. by injection Hend.
Qed.

Lemma join_component (p name : string) :
  component name = true → OsPath.join p name = OsPath.dir_prefix p +:+ name.
Proof. intros [_ Hslash]%component_spec. by apply join_relative, no_slash_relative. Qed.

Lemma below_path_length (p f : string) :
  below_path p f → (String.length p ≤ String.length f)%nat.
Proof. intros [->|[rest ->]]; [done|]. rewrite str_length_app. lia. Qed.

Lemma below_path_trans (p name f : string) :
  below_path (p +:+ "/" +:+ name) f → below_path p f.
Proof.
  intros [->|[rest ->]]; right; [by exists name|].
  exists (name +:+ "/" +:+ rest). by rewrite !str_app_assoc.
Qed.

(** Under a path that does not end with the separator, every folder of a
    well-formed tree has a path below it. *)
Lemma all_folders_below :
  ∀ tree, well_formed tree = true →
  ∀ p c, PyStr.last_char p = Some c → c ≠ "/"%char →
  ∀ f, f ∈ all_folders tree p → below_path p f.
Proof.
  induction tree as [subs IH] using dirtree_induction.
  cbn [well_formed all_folders]. intros [_ Hsubs]%andb_true_iff p c Hc Hne f.
  intros [->|Hf]%elem_of_cons; [by left|].
  apply flat_map_elem_of in Hf as ([name sub] & Hin & Hf).
  rewrite forallb_forall in Hsubs.
  specialize (Hsubs _ (proj1 (list_elem_of_In _ _) Hin)). simpl in Hsubs.
  apply andb_true_iff in Hsubs as [Hname Hsub].
  rewrite Forall_forall in IH.
  rewrite (join_component _ _ Hname), (dir_prefix_plain _ _ Hc Hne), str_app_assoc in Hf.
  apply component_spec in Hname as [Hne' Hslash].
  destruct (last_char_no_slash name Hne' Hslash) as (c' & Hc' & Hne'').
  apply (below_path_trans p name).
  apply (IH _ Hin Hsub _ c'); [|done..].
  rewrite <- str_app_assoc. by rewrite last_char_app.
Qed.

(** Two components followed by nothing or by a separator: from equal
    wholes, equal components. *)
Lemma component_cancel (n1 n2 s1 s2 : string) :
  PyStr.contains "/"%char n1 = false → PyStr.contains "/"%char n2 = false →
  (s1 = "" ∨ ∃ r, s1 = "/" +:+ r) → (s2 = "" ∨ ∃ r, s2 = "/" +:+ r) →
  n1 +:+ s1 = n2 +:+ s2 → n1 = n2.
Proof.
  revert n2. induction n1 as [|a n1 IH]; intros [|b n2] H1 H2 Hs1 Hs2 Heq; [done|..].
  - rewrite str_app_nil_l, str_app_cons in Heq.
    rewrite contains_cons in H2. apply orb_false_iff in H2 as [Hb _].
    apply Ascii.eqb_neq in Hb.
    destruct Hs1 as [->|[r ->]]; [done|]. by injection Heq as <-.
  - rewrite str_app_nil_l, str_app_cons in Heq.
    rewrite contains_cons in H1. apply orb_false_iff in H1 as [Ha _].
    apply Ascii.eqb_neq in Ha.
    destruct Hs2 as [->|[r ->]]; [done|]. by injection Heq as ->.
  - rewrite !str_app_cons in Heq. injection Heq as -> Heq.
    rewrite contains_cons in H1, H2.
    apply orb_false_iff in H1 as [_ H1]. apply orb_false_iff in H2 as [_ H2].
    f_equal. by apply (IH n2).
Qed.

Lemma below_path_tail (q f : string) :
  below_path q f → ∃ s, f = q +:+ s ∧ (s = "" ∨ ∃ r, s = "/" +:+ r).
Proof.
  intros [->|[rest ->]].
  - exists "". by rewrite str_app_nil_r; auto.
  - exists ("/" +:+ rest). split; [done|]. right. by exists rest.
Qed.

Lemma subfolder_paths_below (p name : string) (sub : dirtree) (f : string) :
  component name = true → well_formed sub = true →
  f ∈ all_folders sub (OsPath.join p name) →
  below_path (OsPath.dir_prefix p +:+ name) f.
Proof.
  intros Hname Hsub Hf. rewrite (join_component _ _ Hname) in Hf.
  pose proof Hname as [Hne Hslash]%component_spec.
  destruct (last_char_no_slash name Hne Hslash) as (c & Hc & Hc').
  apply (all_folders_below sub Hsub _ c); [|done..]. by rewrite last_char_app.
Qed.

(** In a well-formed tree no two folders have the same path. *)
Lemma well_formed_distinct_paths :
  ∀ tree, well_formed tree = true → ∀ p, NoDup (all_folders tree p).
Proof.
  induction tree as [subs IH] using dirtree_induction.
  cbn [well_formed all_folders]. intros [Hnames Hsubs]%andb_true_iff p.
  apply bool_decide_eq_true in Hnames. rewrite forallb_forall in Hsubs.
  assert (Hwf : ∀ name sub, (name, sub) ∈ subs →
                  component name = true ∧ well_formed sub = true).
  { intros name sub Hin. apply andb_true_iff.
    exact (Hsubs _ (proj1 (list_elem_of_In _ _) Hin)). }
  clear Hsubs. constructor.
  - intros Hp. apply flat_map_elem_of in Hp as ([name sub] & Hin & Hp).
    destruct (Hwf _ _ Hin) as [Hname Hsub].
    apply (subfolder_paths_below p name sub p Hname Hsub), below_path_length in Hp.
    rewrite str_length_app in Hp.
    apply component_spec in Hname as [Hne _].
    assert (String.length p ≤ String.length (OsPath.dir_prefix p))%nat
      by (destruct (dir_prefix_cases p) as [-> | ->]; rewrite ?str_length_app; lia).
    destruct name; [done|simpl in Hp; lia].
  - induction subs as [|[name sub] subs IHsubs]; [constructor|].
    apply Forall_cons in IH as [IHsub IH]. cbn [flat_map].
    rewrite fmap_cons in Hnames. apply NoDup_cons in Hnames as [Hfresh Hnames].
    destruct (Hwf name sub) as [Hname Hsub]; [by left|].
    apply NoDup_app. split; [by apply IHsub|]. split.
    + intros f Hf Hf'. apply flat_map_elem_of in Hf' as ([name' sub'] & Hin' & Hf').
      destruct (Hwf name' sub') as [Hname' Hsub']; [by right|].
      apply (subfolder_paths_below p name sub f Hname Hsub), below_path_tail in Hf
        as (s1 & -> & Hs1).
      apply (subfolder_paths_below p name' sub' _ Hname' Hsub'), below_path_tail in Hf'
        as (s2 & Heq & Hs2).
      rewrite !str_app_assoc in Heq. apply (inj (String.append _)) in Heq.
      apply component_spec in Hname as [_ Hslash].
      apply component_spec in Hname' as [_ Hslash'].
      apply (component_cancel _ _ _ _ Hslash Hslash' Hs1 Hs2) in Heq as ->.
      apply Hfresh. apply list_elem_of_fmap. by exists (name', sub').
    + apply IHsubs; [done..|]. intros n c Hin. apply Hwf. by right.
Qed.

(** *** The ledger: lines read back after appends *)

Lemma splitlines_from_cons flag c rest :
  PyStr.splitlines_from flag (String c rest) =
  if flag && PyStr.is_lf c then PyStr.splitlines_from false rest
  else if PyStr.is_linebreak c
       then EmptyString :: PyStr.splitlines_from (PyStr.is_cr c) rest
       else PyStr.push_char c (PyStr.splitlines_from false rest).
Proof. reflexivity. Qed.

Lemma splitlines_nonempty (text : string) :
  text ≠ "" → PyStr.splitlines_from false text ≠ [].
Proof.
  destruct text as [|c rest]; [done|]. intros _. rewrite splitlines_from_cons.
  simpl. destruct (PyStr.is_linebreak c); [done|].
  by destruct (PyStr.splitlines_from false rest).
Qed.

Lemma push_char_app c (l1 l2 : list string) :
  l1 ≠ [] → PyStr.push_char c (l1 ++ l2) = PyStr.push_char c l1 ++ l2.
Proof. by destruct l1. Qed.

Lemma splitlines_from_app_newline (pre s : string) :
  ∀ flag,
    PyStr.splitlines_from flag ((pre +:+ newline) +:+ s)
    = PyStr.splitlines_from flag (pre +:+ newline) ++ PyStr.splitlines_from false s.
Proof.
  induction pre as [|c pre IH]; intros flag.
  - rewrite str_app_nil_l. unfold newline. rewrite str_app_cons, str_app_nil_l.
    rewrite !splitlines_from_cons. by destruct flag.
  - rewrite !str_app_cons, !splitlines_from_cons.
    destruct (flag && PyStr.is_lf c); [apply IH|].
    destruct (PyStr.is_linebreak c); [by rewrite IH|].
    rewrite IH, push_char_app; [done|].
    apply splitlines_nonempty. by destruct pre.
Qed.

Lemma splitlines_line (f : string) :
  has_linebreak f = false → PyStr.splitlines_from false (f +:+ newline) = [f].
Proof.
  induction f as [|c f IH]; [done|].
  cbn [has_linebreak]. intros [Hc Hf]%orb_false_iff.
  rewrite str_app_cons, splitlines_from_cons, Hc, (IH Hf). done.
Qed.

Lemma splitlines_append (text f : string) :
  terminated text → has_linebreak f = false →
  PyStr.splitlines (text +:+ f +:+ newline) = PyStr.splitlines text ++ [f].
Proof.
  unfold PyStr.splitlines. intros [->|[pre ->]] Hf.
  - rewrite str_app_nil_l. by apply splitlines_line.
  - by rewrite splitlines_from_app_newline, (splitlines_line f Hf).
Qed.

Lemma terminated_append (text f : string) : terminated (text +:+ f +:+ newline).
Proof. right. exists (text +:+ f). by rewrite str_app_assoc. Qed.

Lemma in_ledger_elem_of (processed : list string) (f : string) :
  in_ledger processed f = true ↔ f ∈ processed.
Proof.
  unfold in_ledger. rewrite existsb_exists. split.
  - intros (x & Hx & ->%String.eqb_eq). by apply list_elem_of_In.
  - intros Hf. exists f. split; [by apply list_elem_of_In|apply String.eqb_refl].
Qed.

Lemma load_ledger_run processed_file fs :
  load_ledger processed_file fs = (Returned (ledger_lines fs processed_file), fs, []).
Proof.
  unfold load_ledger, ledger_lines. rewrite bind_run. unfold Os.isfile at 1. cbv beta iota.
  destruct (fs !! processed_file) as [text|] eqn:Htext.
  - rewrite bool_decide_eq_true_2 by eauto.
    rewrite bind_run. unfold Os.read_text at 1. by rewrite Htext.
  - rewrite bool_decide_eq_false_2; [done|]. by intros [??].
Qed.

Lemma ledger_terminated_spec fs processed_file :
  ledger_terminated fs processed_file = true ↔
  match fs !! processed_file with
  | Some text => terminated text
  | None => True
  end.
Proof.
  unfold ledger_terminated, terminated. destruct (fs !! processed_file) as [text|]; [|done].
  by rewrite orb_true_iff, String.eqb_eq, endswith_spec.
Qed.

(** Appending a folder to a well-ended ledger adds it as the last line. *)
Lemma append_folder_lines fs processed_file folder :
  ledger_terminated fs processed_file = true →
  has_linebreak folder = false →
  let fs' := <[processed_file :=
                 default "" (fs !! processed_file) +:+ folder +:+ newline]> fs in
  ledger_terminated fs' processed_file = true
  ∧ ledger_lines fs' processed_file = ledger_lines fs processed_file ++ [folder].
Proof.
  intros Hterm Hfolder fs'. apply ledger_terminated_spec in Hterm. split.
  - apply ledger_terminated_spec. unfold fs'. rewrite lookup_insert_eq.
    apply terminated_append.
  - unfold ledger_lines, fs'. rewrite lookup_insert_eq.
    destruct (fs !! processed_file) as [text|]; simpl.
    + by apply splitlines_append.
    + rewrite str_app_nil_l. by apply splitlines_line.
Qed.

(** ** The claims about the shrinker *)

(** C10: the quality-reduction loop, started at quality 80 as
    [reduce_image_size] starts it, always comes to an end and returns. It
    encodes [n] times for some [n] of at most 16, at the qualities 75, 70, ...
    in this order, each 5 below the one before; no quality it uses is
    negative, the final quality [80 - 5 * n] is not negative, and when the
    size is still above [max_size] at the end the loop has stopped at quality
    0, returning normally. *)
Theorem shrink_loop_terminates img new_file_path max_size original_size fs :
  ∃ (n : nat) size' quality' fs' t,
    shrink_loop img new_file_path max_size original_size 80 fs
    = (Returned (size', quality'), fs', t)
    ∧ (n ≤ 16)%nat
    ∧ t = EvSave new_file_path <$> take n encode_qualities
    ∧ quality' = 80 - 5 * Z.of_nat n
    ∧ Forall (λ q, 0 ≤ q < 80) (save_qualities t)
    ∧ 0 ≤ quality'
    ∧ (max_size < size' → quality' = 0).
Proof.
  destruct (shrink_loop_from_80 img new_file_path max_size original_size fs)
    as (n & size' & fs' & Hrun & Hle & Hbig & _).
  eexists n, size', _, fs', _. split; [exact Hrun|].
  rewrite save_qualities_saves. repeat split; try done; try lia.
  apply Forall_take. unfold encode_qualities; simpl. repeat constructor; lia.
Qed.

(** C6, as the code has it: [quality] starts at 80 but is decreased by 5
    before every encode, so the qualities used for encoding are, in order, an
    initial segment of 75, 70, ..., 5, 0, and the first encode, when there is
    one, is at quality 75. An encode happens only after the last measured
    size exceeded [max_size]: the size of the file found at the working path
    for the first encode, the size of the preceding encode for the later
    ones. *)
Theorem encodes_start_at_75 file_path max_size fs :
  ∃ n : nat,
    save_qualities (trace_of (reduce_image_size file_path max_size fs))
    = take n encode_qualities
    ∧ (n ≠ 0%nat →
       ∃ c img0 c',
         fs !! file_path = Some c ∧ decode c = Some img0
         ∧ fs !! (working_copy file_path img0).1 = Some c'
         ∧ max_size < Os.size_of c'
         ∧ Forall (λ q, max_size <
                        Os.size_of (encode (working_copy file_path img0).2
                                      (working_copy file_path img0).1 q))
             (take (n - 1) encode_qualities)).
Proof.
  unfold reduce_image_size. rewrite bind_run, shrink_phase_run.
  destruct (fs !! file_path) as [c|] eqn:Hc; [|by exists 0%nat].
  destruct (decode c) as [img0|] eqn:Hdec; [|by exists 0%nat].
  destruct (fs !! (working_copy file_path img0).1) as [c'|] eqn:Hc'; [|by exists 0%nat].
  destruct (shrink_loop_from_80 (working_copy file_path img0).2
              (working_copy file_path img0).1 max_size (Os.size_of c') fs)
    as (n & size' & fs' & -> & _ & _ & _ & Hpos & Hall).
  exists n. split.
  - assert (Hquiet : ∀ fp nfp fs1,
              save_qualities (trace_of (replace_phase fp nfp max_size fs1)) = []).
    { intros fp nfp fs1. unfold replace_phase. rewrite bind_run.
      unfold Os.getsize at 1. destruct (fs1 !! nfp); [|done].
      destruct (max_size <? _).
      - unfold Os.remove. by destruct (fs1 !! nfp).
      - rewrite bind_run. unfold Os.remove at 1.
        destruct (fs1 !! fp); [|done]. unfold Os.rename.
        by destruct (delete fp fs1 !! nfp). }
    specialize (Hquiet file_path (working_copy file_path img0).1 fs').
    destruct (replace_phase _ _ _ _) as [[r fs2] t2]. unfold trace_of in *; simpl in *.
    by rewrite save_qualities_app, save_qualities_saves, Hquiet, app_nil_r.
  - intros Hn. destruct (Hpos Hn) as (Hsize & _). by exists c, img0, c'.
Qed.

(** C3: for an input that is not a PNG the working path is the input path;
    when the [with] block leaves a file of at most [max_size] bytes there
    (the success branch), [reduce_image_size] removes the file and then
    renames the path it has just removed: the call raises
    [FileNotFoundError] and no file is left at the original path. *)
Theorem non_png_success_destroys_file fs file_path max_size c img nfp fs1 t1 c1 :
  fs !! file_path = Some c →
  decode c = Some img →
  String.eqb (img_format img) "PNG" = false →
  shrink_phase file_path max_size fs = (Returned nfp, fs1, t1) →
  fs1 !! nfp = Some c1 →
  Os.size_of c1 ≤ max_size →
  nfp = file_path
  ∧ reduce_image_size file_path max_size fs
    = (Raised (FileNotFoundError file_path), delete file_path fs1, t1)
  ∧ files_of (reduce_image_size file_path max_size fs) !! file_path = None.
Proof.
  intros Hc Hdec Hfmt Hphase Hc1 Hfit.
  assert (Hnfp : nfp = file_path).
  { rewrite shrink_phase_run, Hc, Hdec in Hphase.
    unfold working_copy in Hphase. rewrite Hfmt in Hphase. simpl in Hphase.
    rewrite Hc in Hphase.
    destruct (shrink_loop _ _ _ _ _ _) as [[[?|?] ?] ?]; congruence. }
  subst nfp. split; [done|].
  assert (Hrun : reduce_image_size file_path max_size fs
                 = (Raised (FileNotFoundError file_path), delete file_path fs1, t1)).
  { unfold reduce_image_size. rewrite bind_run, Hphase.
    unfold replace_phase. rewrite bind_run. unfold Os.getsize at 1. rewrite Hc1.
    rewrite (proj2 (Z.ltb_ge _ _) Hfit). rewrite bind_run.
    unfold Os.remove at 1. rewrite Hc1. unfold Os.rename.
    rewrite lookup_delete_eq. simpl. by rewrite app_nil_r. }
  split; [done|]. rewrite Hrun. unfold files_of; simpl. apply lookup_delete_eq.
Qed.

(** C4: for a PNG input whose sibling with the [.jpg] extension is not on
    disk, [reduce_image_size] raises [FileNotFoundError] for that sibling at
    the first size measurement: nothing was encoded and no file has
    changed. *)
Theorem png_without_sibling_raises fs file_path max_size c img :
  fs !! file_path = Some c →
  decode c = Some img →
  String.eqb (img_format img) "PNG" = true →
  fs !! ((OsPath.splitext file_path).1 +:+ ".jpg") = None →
  reduce_image_size file_path max_size fs
  = (Raised (FileNotFoundError ((OsPath.splitext file_path).1 +:+ ".jpg")), fs, []).
Proof.
  intros Hc Hdec Hfmt Hsib.
  unfold reduce_image_size. rewrite bind_run, shrink_phase_run, Hc, Hdec.
  unfold working_copy. rewrite Hfmt. simpl. by rewrite Hsib.
Qed.

(** ** Further properties of the shrinker *)

Lemma countdown_lookup (k : nat) :
  ∀ q (i : nat), (i < k)%nat → countdown k q !! i = Some (q - 5 * (Z.of_nat i + 1)).
Proof.
  induction k as [|k IH]; intros q i Hi; [lia|].
  destruct i as [|i]; simpl.
  - f_equal; lia.
  - rewrite IH by lia. f_equal; lia.
Qed.

Lemma countdown_length (k : nat) q : length (countdown k q) = k.
Proof. revert q. induction k as [|k IH]; intros q; simpl; [done|by rewrite IH]. Qed.

(** The loop stops at the first quality whose encode fits. *)
Lemma shrink_loop_first_fit img nfp max_size (k : nat) size fs (i : nat) q :
  max_size < size →
  countdown k (5 * Z.of_nat k) !! i = Some q →
  Forall (λ q', max_size < Os.size_of (encode img nfp q'))
    (take i (countdown k (5 * Z.of_nat k))) →
  Os.size_of (encode img nfp q) ≤ max_size →
  shrink_loop img nfp max_size size (5 * Z.of_nat k) fs
  = (Returned (Os.size_of (encode img nfp q), q),
     <[nfp := encode img nfp q]> fs,
     EvSave nfp <$> take (S i) (countdown k (5 * Z.of_nat k))).
Proof.
  intros Hsize Hq Hbefore Hfit.
  assert (Hik : (i < k)%nat).
  { apply lookup_lt_Some in Hq. by rewrite countdown_length in Hq. }
  destruct (shrink_loop_run img nfp max_size k size fs)
    as (n & size' & fs' & Hrun & Hle & Hbig & Hzero & Hpos & Hall).
  assert (Hn0 : n ≠ 0%nat).
  { intros ->. destruct (Hzero eq_refl) as [_ ->]. specialize (Hbig Hsize). lia. }
  destruct (Hpos Hn0) as (_ & Hfs' & Hsize').
  assert (Hlast : countdown k (5 * Z.of_nat k) !! (n - 1)%nat
                  = Some (5 * Z.of_nat k - 5 * Z.of_nat n)).
  { rewrite countdown_lookup by lia. f_equal; lia. }
  assert (Hn : n = S i).
  { destruct (decide (n ≤ i)%nat) as [Hlow|Hlow].
    - assert (Hover : max_size < size').
      { rewrite Hsize'. rewrite Forall_forall in Hbefore. apply Hbefore.
        apply list_elem_of_lookup. exists (n - 1)%nat.
        rewrite lookup_take_lt by lia. exact Hlast. }
      specialize (Hbig Hover). lia.
    - destruct (decide (n = S i)) as [?|Hne]; [done|].
      rewrite Forall_forall in Hall.
      assert (Hover : max_size < Os.size_of (encode img nfp q)); [|lia].
      apply Hall. apply list_elem_of_lookup. exists i.
      rewrite lookup_take_lt by lia. exact Hq. }
  subst n. replace (S i - 1)%nat with i in Hlast by lia.
  rewrite Hq in Hlast. injection Hlast as ->.
  by rewrite Hrun, Hfs', Hsize'.
Qed.

(** When no encode fits the loop runs down to quality 0. *)
Lemma shrink_loop_never_fits img nfp max_size (k : nat) size fs :
  (0 < k)%nat → max_size < size →
  Forall (λ q', max_size < Os.size_of (encode img nfp q')) (countdown k (5 * Z.of_nat k)) →
  shrink_loop img nfp max_size size (5 * Z.of_nat k) fs
  = (Returned (Os.size_of (encode img nfp 0), 0),
     <[nfp := encode img nfp 0]> fs,
     EvSave nfp <$> countdown k (5 * Z.of_nat k)).
Proof.
  intros Hk Hsize Hnever.
  destruct (shrink_loop_run img nfp max_size k size fs)
    as (n & size' & fs' & Hrun & Hle & Hbig & Hzero & Hpos & Hall).
  assert (Hn0 : n ≠ 0%nat).
  { intros ->. destruct (Hzero eq_refl) as [_ ->]. specialize (Hbig Hsize). lia. }
  destruct (Hpos Hn0) as (_ & Hfs' & Hsize').
  assert (Hover : max_size < size').
  { rewrite Hsize'. rewrite Forall_forall in Hnever. apply Hnever.
    apply list_elem_of_lookup. exists (n - 1)%nat.
    rewrite countdown_lookup by lia. f_equal; lia. }
  specialize (Hbig Hover). subst n.
  rewrite Hrun, Hfs', Hsize'.
  replace (5 * Z.of_nat k - 5 * Z.of_nat k) with 0 by lia.
  rewrite take_ge; [done|]. by rewrite countdown_length.
Qed.

Lemma shrink_loop_first_fit_80 img nfp max_size size fs (i : nat) q :
  max_size < size →
  encode_qualities !! i = Some q →
  Forall (λ q', max_size < Os.size_of (encode img nfp q')) (take i encode_qualities) →
  Os.size_of (encode img nfp q) ≤ max_size →
  shrink_loop img nfp max_size size 80 fs
  = (Returned (Os.size_of (encode img nfp q), q),
     <[nfp := encode img nfp q]> fs,
     EvSave nfp <$> take (S i) encode_qualities).
Proof. exact (shrink_loop_first_fit img nfp max_size 16 size fs i q). Qed.

Lemma shrink_loop_never_fits_80 img nfp max_size size fs :
  max_size < size →
  Forall (λ q', max_size < Os.size_of (encode img nfp q')) encode_qualities →
  shrink_loop img nfp max_size size 80 fs
  = (Returned (Os.size_of (encode img nfp 0), 0),
     <[nfp := encode img nfp 0]> fs,
     EvSave nfp <$> encode_qualities).
Proof.
  exact (shrink_loop_never_fits img nfp max_size 16 size fs ltac:(lia)).
Qed.

Lemma working_copy_png file_path img :
  String.eqb (img_format img) "PNG" = true →
  working_copy file_path img
  = ((OsPath.splitext file_path).1 +:+ ".jpg", convert_rgb img).
Proof. unfold working_copy. by intros ->. Qed.


(** The [if]/[else] after the [with] block, when the working path is not the
    input path and both files are there. *)
Lemma replace_phase_sibling file_path nfp max_size (fs : files) c c' :
  nfp ≠ file_path → fs !! file_path = Some c → fs !! nfp = Some c' →
  replace_phase file_path nfp max_size fs
  = if max_size <? Os.size_of c'
    then (Returned tt, delete nfp fs, [])
    else (Returned tt, <[file_path := c']> (delete nfp fs), []).
Proof.
  intros Hne Hc Hc'. unfold replace_phase. rewrite bind_run.
  unfold Os.getsize at 1. rewrite Hc'.
  destruct (max_size <? Os.size_of c').
  - unfold Os.remove. by rewrite Hc'.
  - rewrite bind_run. unfold Os.remove at 1. rewrite Hc.
    unfold Os.rename. rewrite lookup_delete_ne, Hc' by done. simpl.
    f_equal. f_equal. apply map_eq. intros k.
    destruct (decide (k = file_path)) as [->|Hk].
    + by rewrite !lookup_insert_eq.
    + rewrite !lookup_insert_ne by done.
      destruct (decide (k = nfp)) as [->|Hk'].
      * by rewrite !lookup_delete_eq.
      * by rewrite !lookup_delete_ne.
Qed.


(** X1: a PNG whose [.jpg] sibling is on disk and too large is encoded to the
    sibling path at 75, 70, ... until the first quality that fits; the call
    returns, the original path then holds that encode of the converted image
    (at most [max_size] bytes), and the sibling path is free again. *)
Theorem png_is_replaced_by_first_fitting_encode
    fs file_path max_size c img c' (i : nat) q :
  fs !! file_path = Some c →
  decode c = Some img →
  String.eqb (img_format img) "PNG" = true →
  (OsPath.splitext file_path).1 +:+ ".jpg" ≠ file_path →
  fs !! ((OsPath.splitext file_path).1 +:+ ".jpg") = Some c' →
  max_size < Os.size_of c' →
  encode_qualities !! i = Some q →
  Forall (λ q', max_size <
                Os.size_of (encode (convert_rgb img)
                              ((OsPath.splitext file_path).1 +:+ ".jpg") q'))
    (take i encode_qualities) →
  Os.size_of (encode (convert_rgb img) ((OsPath.splitext file_path).1 +:+ ".jpg") q)
  ≤ max_size →
  reduce_image_size file_path max_size fs
  = (Returned tt,
     <[file_path := encode (convert_rgb img) ((OsPath.splitext file_path).1 +:+ ".jpg") q]>
       (delete ((OsPath.splitext file_path).1 +:+ ".jpg") fs),
     EvSave ((OsPath.splitext file_path).1 +:+ ".jpg") <$> take (S i) encode_qualities).
Proof.
  intros Hc Hdec Hfmt Hne Hc' Hsize Hq Hbefore Hfit.
  set (nfp := (OsPath.splitext file_path).1 +:+ ".jpg") in *.
  unfold reduce_image_size. rewrite bind_run, shrink_phase_run, Hc, Hdec.
  rewrite (working_copy_png _ _ Hfmt). cbn [fst snd]. fold nfp. rewrite Hc'.
  rewrite (shrink_loop_first_fit_80 (convert_rgb img) nfp max_size (Os.size_of c') fs i q
             Hsize Hq Hbefore Hfit).
  rewrite (replace_phase_sibling file_path nfp max_size _ c
             (encode (convert_rgb img) nfp q) Hne).
  - rewrite (proj2 (Z.ltb_ge _ _) Hfit). rewrite app_nil_r.
    f_equal. f_equal. f_equal. apply map_eq. intros k.
    destruct (decide (k = nfp)) as [->|Hk]; [by rewrite !lookup_delete_eq|].
    by rewrite !lookup_delete_ne, lookup_insert_ne.
  - by rewrite lookup_insert_ne.
  - by rewrite lookup_insert_eq.
Qed.

(** X2: a PNG whose [.jpg] sibling is on disk with at most [max_size] bytes
    is not encoded at all: the call returns with the sibling's bytes moved to
    the original path, whatever the size of the PNG. *)
Theorem png_is_replaced_by_small_sibling fs file_path max_size c img c' :
  fs !! file_path = Some c →
  decode c = Some img →
  String.eqb (img_format img) "PNG" = true →
  (OsPath.splitext file_path).1 +:+ ".jpg" ≠ file_path →
  fs !! ((OsPath.splitext file_path).1 +:+ ".jpg") = Some c' →
  Os.size_of c' ≤ max_size →
  reduce_image_size file_path max_size fs
  = (Returned tt,
     <[file_path := c']> (delete ((OsPath.splitext file_path).1 +:+ ".jpg") fs),
     []).
Proof.
  intros Hc Hdec Hfmt Hne Hc' Hsize.
  set (nfp := (OsPath.splitext file_path).1 +:+ ".jpg") in *.
  unfold reduce_image_size. rewrite bind_run, shrink_phase_run, Hc, Hdec.
  rewrite (working_copy_png _ _ Hfmt). cbn [fst snd]. fold nfp. rewrite Hc'.
  rewrite shrink_loop_step, decide_False by lia.
  rewrite (replace_phase_sibling file_path nfp max_size fs c c' Hne Hc Hc').
  by rewrite (proj2 (Z.ltb_ge _ _) Hsize).
Qed.

(** X3: a PNG whose [.jpg] sibling is on disk and too large, and that no
    quality from 75 down to 0 brings to [max_size] bytes, keeps its bytes at
    the original path, but the sibling file is overwritten sixteen times and
    then removed; the call returns. *)
Theorem png_that_cannot_fit_loses_its_sibling fs file_path max_size c img c' :
  fs !! file_path = Some c →
  decode c = Some img →
  String.eqb (img_format img) "PNG" = true →
  (OsPath.splitext file_path).1 +:+ ".jpg" ≠ file_path →
  fs !! ((OsPath.splitext file_path).1 +:+ ".jpg") = Some c' →
  max_size < Os.size_of c' →
  Forall (λ q', max_size <
                Os.size_of (encode (convert_rgb img)
                              ((OsPath.splitext file_path).1 +:+ ".jpg") q'))
    encode_qualities →
  reduce_image_size file_path max_size fs
  = (Returned tt, delete ((OsPath.splitext file_path).1 +:+ ".jpg") fs,
     EvSave ((OsPath.splitext file_path).1 +:+ ".jpg") <$> encode_qualities)
  ∧ files_of (reduce_image_size file_path max_size fs) !! file_path = Some c.
Proof.
  intros Hc Hdec Hfmt Hne Hc' Hsize Hnever.
  set (nfp := (OsPath.splitext file_path).1 +:+ ".jpg") in *.
  assert (Hrun : reduce_image_size file_path max_size fs
                 = (Returned tt, delete nfp fs, EvSave nfp <$> encode_qualities)).
  { unfold reduce_image_size. rewrite bind_run, shrink_phase_run, Hc, Hdec.
    rewrite (working_copy_png _ _ Hfmt). cbn [fst snd]. fold nfp. rewrite Hc'.
    rewrite (shrink_loop_never_fits_80 (convert_rgb img) nfp max_size (Os.size_of c') fs
               Hsize Hnever).
    rewrite (replace_phase_sibling file_path nfp max_size _ c
               (encode (convert_rgb img) nfp 0) Hne).
    - assert (Hzero : max_size < Os.size_of (encode (convert_rgb img) nfp 0)).
      { rewrite Forall_forall in Hnever. apply Hnever.
        apply list_elem_of_lookup. by exists 15%nat. }
      rewrite (proj2 (Z.ltb_lt _ _) Hzero), app_nil_r.
      f_equal. f_equal. apply map_eq. intros k.
      destruct (decide (k = nfp)) as [->|Hk]; [by rewrite !lookup_delete_eq|].
      by rewrite !lookup_delete_ne, lookup_insert_ne.
    - by rewrite lookup_insert_ne.
    - by rewrite lookup_insert_eq. }
  split; [exact Hrun|]. rewrite Hrun. unfold files_of; simpl.
  by rewrite lookup_delete_ne.
Qed.

(** X4: when [Image.open] raises (the file is missing or is no image),
    [reduce_image_size] raises the same exception and the disk is as it
    was: nothing is encoded, removed or renamed. *)
Theorem open_failure_changes_nothing file_path max_size fs e fs0 t0 :
  image_open file_path fs = (Raised e, fs0, t0) →
  reduce_image_size file_path max_size fs = (Raised e, fs, []).
Proof.
  unfold reduce_image_size. rewrite bind_run, shrink_phase_run. unfold image_open.
  destruct (fs !! file_path) as [c|]; [|by intros [= <- _ _]].
  destruct (decode c) as [img|]; [done|by intros [= <- _ _]].
Qed.


(** X6: a call changes no file but the input path and the path with the
    input's stem and the extension [.jpg], on any disk and whether it returns
    or raises. *)
Theorem only_input_and_sibling_change file_path max_size fs path :
  path ≠ file_path →
  path ≠ (OsPath.splitext file_path).1 +:+ ".jpg" →
  files_of (reduce_image_size file_path max_size fs) !! path = fs !! path.
Proof. apply reduce_image_size_frame. Qed.

(** ** The claims about the walker *)




Lemma ledger_path_last_char root_folder :
  PyStr.last_char (ledger_path root_folder) = Some "t"%char.
Proof. unfold ledger_path. by rewrite join_last_char. Qed.

Lemma futures_image_paths fs folder max_size names :
  Forall image_path (futures_of fs folder max_size names).
Proof.
  unfold futures_of. apply Forall_fmap, Forall_forall.
  intros name [Hover _]%list_elem_of_filter. apply joined_image_path.
  unfold oversized in Hover. by apply andb_true_iff in Hover as [? _].
Qed.


(** *** Which folders the events of a walk belong to *)

Lemma walk_event_mono excluded (l1 l2 : list string) ev :
  l1 ⊆ l2 → walk_event excluded l1 ev → walk_event excluded l2 ev.
Proof. intros Hsub. destruct ev; simpl; auto; intros [??]; auto. Qed.

Lemma process_folder_events excluded visited processed_file folder max_size fs :
  folder ∈ visited → is_excluded excluded folder = false →
  Forall (walk_event excluded visited)
    (trace_of (process_folder processed_file folder
                 (omap (entry_name folder) (map_to_list fs).*1) max_size fs)).
Proof.
  intros Hin Hexcl.
  destruct (process_folder_cases processed_file folder
              (omap (entry_name folder) (map_to_list fs).*1) max_size fs)
    as (results & fs2 & trun & Hrun & Hcases); [apply listing_present|].
  destruct (run_pool_run max_size
              (completion_order
                 (futures_of fs folder max_size
                    (omap (entry_name folder) (map_to_list fs).*1))) fs)
    as (results' & fs2' & trun' & Hrun' & _ & Htask & _).
  rewrite Hrun in Hrun'. injection Hrun' as <- <- <-.
  assert (Htrun : Forall (walk_event excluded visited) trun)
    by (eapply Forall_impl; [exact Htask|]; by intros []).
  assert (Hsub : ∀ paths, Forall (walk_event excluded visited) (EvSubmit folder <$> paths))
    by (intros paths; apply Forall_fmap, Forall_true; by split).
  destruct Hcases as [[_ ->]|(e & _ & ->)]; unfold trace_of; cbn [snd];
    constructor; try by split.
  - rewrite !Forall_app. repeat split; [apply Hsub|exact Htrun|].
    repeat constructor; done.
  - rewrite Forall_app. split; [apply Hsub|exact Htrun].
Qed.

Lemma for_each_events {A} (P : event → Prop) (body : A → io unit) (items : list A) :
  Forall (λ x, ∀ fs, Forall P (trace_of (body x fs))) items →
  ∀ fs, Forall P (trace_of (for_each body items fs)).
Proof.
  induction 1 as [|x items Hx _ IH]; intros fs; [constructor|].
  cbn [for_each]. rewrite bind_run. specialize (Hx fs).
  destruct (body x fs) as [[[u|e] fs1] t1]; [|exact Hx].
  specialize (IH fs1). destruct (for_each body items fs1) as [[r fs2] t2].
  unfold trace_of in *; simpl in *. apply Forall_app. by split.
Qed.

Lemma walk_events processed_file excluded processed max_size :
  ∀ tree path fs,
    Forall (walk_event excluded (visited_folders excluded tree path))
      (trace_of (walk processed_file excluded processed max_size tree path fs)).
Proof.
  induction tree as [subs IH] using dirtree_induction. intros path fs.
  cbn [walk visited_folders]. rewrite bind_run, visit_folder_run.
  destruct (is_excluded excluded path) eqn:Hexcl.
  { unfold trace_of; simpl. repeat constructor. }
  set (below := flat_map _ subs).
  assert (Hchildren : ∀ fs1,
            Forall (walk_event excluded (path :: below))
              (trace_of (for_each
                 (λ '(name, sub),
                    walk processed_file excluded processed max_size sub
                      (OsPath.join path name)) subs fs1))).
  { apply for_each_events. apply Forall_forall. intros [name sub] Hin fs1.
    rewrite Forall_forall in IH. specialize (IH _ Hin (OsPath.join path name) fs1).
    eapply Forall_impl; [exact IH|]. intros ev. apply walk_event_mono.
    intros f Hf. right. unfold below. apply flat_map_elem_of.
    by exists (name, sub). }
  assert (Hhere : path ∈ path :: below) by left.
  destruct (in_ledger processed path).
  - specialize (Hchildren fs). destruct (for_each _ subs fs) as [[r fs2] t2].
    unfold trace_of in *; simpl in *. by constructor.
  - pose proof (process_folder_events excluded (path :: below) processed_file path
                  max_size fs Hhere Hexcl) as Hfolder.
    destruct (process_folder _ _ _ _ _) as [[[u|e] fs1] t1];
      unfold trace_of in Hfolder; simpl in Hfolder.
    + specialize (Hchildren fs1). destruct (for_each _ subs fs1) as [[r fs2] t2].
      unfold trace_of in *; simpl in *. constructor; [done|]. apply Forall_app. by split.
    + unfold trace_of; simpl. by constructor.
Qed.

Lemma visited_in_all excluded :
  ∀ tree path, visited_folders excluded tree path ⊆ all_folders tree path.
Proof.
  induction tree as [subs IH] using dirtree_induction. intros path f.
  cbn [visited_folders all_folders]. intros [->|Hf]%elem_of_cons; [by left|].
  right. destruct (is_excluded excluded path); [by apply elem_of_nil in Hf|].
  apply flat_map_elem_of in Hf as ([name sub] & Hin & Hf).
  apply flat_map_elem_of. exists (name, sub). split; [done|].
  rewrite Forall_forall in IH. by apply (IH _ Hin).
Qed.

Lemma below_in_all excluded :
  ∀ tree under path, below_excluded excluded under tree path ⊆ all_folders tree path.
Proof.
  induction tree as [subs IH] using dirtree_induction. intros under path f.
  cbn [below_excluded all_folders]. intros [Hf|Hf]%elem_of_app.
  - destruct under; [|by apply elem_of_nil in Hf].
    apply list_elem_of_singleton in Hf as ->. by left.
  - right. apply flat_map_elem_of in Hf as ([name sub] & Hin & Hf).
    apply flat_map_elem_of. exists (name, sub). split; [done|].
    rewrite Forall_forall in IH. exact (IH _ Hin _ _ _ Hf).
Qed.

(** Where paths tell folders apart, no folder below an excluded one is among
    the folders the walk reaches. *)
Lemma below_not_visited excluded :
  ∀ tree path,
    NoDup (all_folders tree path) →
    ∀ f, f ∈ below_excluded excluded false tree path →
         f ∉ visited_folders excluded tree path.
Proof.
  induction tree as [subs IH] using dirtree_induction. intros path.
  cbn [all_folders below_excluded visited_folders]. rewrite app_nil_l.
  intros [Hhead Hrest]%NoDup_cons f Hf.
  assert (Hfall : f ∈ flat_map (λ '(name, sub), all_folders sub (OsPath.join path name)) subs).
  { apply flat_map_elem_of in Hf as ([name sub] & Hin & Hf).
    apply flat_map_elem_of. exists (name, sub). split; [done|].
    by apply below_in_all in Hf. }
  intros [->|Hvis]%elem_of_cons; [done|].
  destruct (is_excluded excluded path) eqn:Hexcl; [by apply elem_of_nil in Hvis|].
  simpl in Hf. clear Hhead Hfall.
  induction subs as [|[name sub] subs IHsubs]; [by apply elem_of_nil in Hf|].
  apply Forall_cons in IH as [IHsub IH].
  cbn [flat_map] in *. apply NoDup_app in Hrest as (Hsub & Hdisj & Hrest).
  apply elem_of_app in Hf as [Hf|Hf]; apply elem_of_app in Hvis as [Hvis|Hvis].
  - by apply (IHsub _ Hsub f).
  - apply below_in_all in Hf. apply (Hdisj f Hf).
    apply flat_map_elem_of in Hvis as ([name' sub'] & Hin & Hvis).
    apply flat_map_elem_of. exists (name', sub'). split; [done|].
    by apply visited_in_all in Hvis.
  - apply visited_in_all in Hvis. apply (Hdisj f Hvis).
    apply flat_map_elem_of in Hf as ([name' sub'] & Hin & Hf).
    apply flat_map_elem_of. exists (name', sub'). split; [done|].
    by apply below_in_all in Hf.
  - by apply IHsubs.
Qed.

(** At a folder whose path is excluded the walk yields the folder and goes
    on: nothing on disk changes and nothing below is looked at. *)
Lemma walk_excluded processed_file excluded processed max_size tree path fs :
  is_excluded excluded path = true →
  walk processed_file excluded processed max_size tree path fs
  = (Returned tt, fs, [EvVisit path]).
Proof.
  intros Hexcl. destruct tree as [subs]. cbn [walk].
  by rewrite bind_run, visit_folder_run, Hexcl.
Qed.

(** C8: in a directory tree as a file system holds it (folder names are path
    components, distinct among the subfolders of a folder), a folder whose
    path ends with an excluded name is never scanned, has no task submitted
    and is not written to the ledger; a folder that lies below such a folder
    is not even visited, whatever files it holds. *)
Theorem excluded_folders_untouched tree root_folder excluded max_size fs folder :
  well_formed tree = true →
  (is_excluded excluded folder = true
   ∨ folder ∈ below_excluded excluded false tree root_folder) →
  Forall (λ ev, ev ≠ EvScan folder ∧ ev ≠ EvAppend folder
                ∧ ∀ path, ev ≠ EvSubmit folder path)
    (trace_of (process_images tree root_folder excluded max_size fs))
  ∧ (folder ∈ below_excluded excluded false tree root_folder →
     EvVisit folder ∉ trace_of (process_images tree root_folder excluded max_size fs)).
Proof.
  intros Hwf Hfolder.
  pose proof (well_formed_distinct_paths tree Hwf root_folder) as Hnodup.
  unfold process_images. rewrite bind_run.
  rewrite load_ledger_run.
  pose proof (walk_events (ledger_path root_folder) excluded
                (ledger_lines fs (ledger_path root_folder)) max_size
                tree root_folder fs) as Hevents.
  destruct (walk _ _ _ _ _ _ _) as [[r fs2] t2]. unfold trace_of in *; simpl in *.
  assert (Hnot : is_excluded excluded folder = true
                 ∨ folder ∉ visited_folders excluded tree root_folder).
  { destruct Hfolder as [?|Hbelow]; [by left|right]. by apply below_not_visited. }
  split.
  - eapply Forall_impl; [exact Hevents|]. intros ev Hev.
    split; [|split; [|intros path]]; intros ->; simpl in Hev;
      destruct Hev as [Hin Hex]; destruct Hnot as [Hnot|Hnot]; congruence.
  - intros Hbelow Hin. rewrite Forall_forall in Hevents.
    specialize (Hevents _ Hin). simpl in Hevents.
    by apply (below_not_visited excluded tree root_folder Hnodup folder).
Qed.

(** *** The ledger along a walk *)

Lemma process_folder_ledger processed_file folder max_size fs u fs' t :
  PyStr.last_char processed_file = Some "t"%char →
  ledger_terminated fs processed_file = true →
  has_linebreak folder = false →
  process_folder processed_file folder
    (omap (entry_name folder) (map_to_list fs).*1) max_size fs = (Returned u, fs', t) →
  ledger_terminated fs' processed_file = true
  ∧ ledger_lines fs' processed_file = ledger_lines fs processed_file ++ [folder].
Proof.
  intros Hlast Hterm Hfolder Hbody.
  destruct (process_folder_cases processed_file folder
              (omap (entry_name folder) (map_to_list fs).*1) max_size fs)
    as (results & fs2 & trun & Hrun & Hcases); [apply listing_present|].
  destruct (run_pool_run max_size
              (completion_order
                 (futures_of fs folder max_size
                    (omap (entry_name folder) (map_to_list fs).*1))) fs)
    as (results' & fs2' & trun' & Hrun' & _ & _ & Hframe).
  rewrite Hrun in Hrun'. injection Hrun' as <- <- <-.
  assert (Hsame : fs2 !! processed_file = fs !! processed_file).
  { apply Hframe; [|done]. apply Forall_forall. intros p Hp.
    rewrite completion_order_perm in Hp. revert p Hp.
    apply Forall_forall, futures_image_paths. }
  destruct Hcases as [[_ Heq]|(e & _ & Heq)]; rewrite Heq in Hbody; [|done].
  injection Hbody as <- <- <-.
  assert (Hterm2 : ledger_terminated fs2 processed_file = true)
    by (unfold ledger_terminated in *; by rewrite Hsame).
  destruct (append_folder_lines fs2 processed_file folder Hterm2 Hfolder) as [H1 H2].
  split; [exact H1|]. rewrite H2. unfold ledger_lines. by rewrite Hsame.
Qed.

(** A walk that returns leaves a well-ended ledger that holds every line it
    held before and every folder that was reached, not excluded, and not in
    the list loaded at the start. *)
Lemma walk_ledger processed_file excluded processed max_size :
  PyStr.last_char processed_file = Some "t"%char →
  ∀ tree path fs u fs' t,
    ledger_terminated fs processed_file = true →
    (∀ f, f ∈ visited_folders excluded tree path →
          is_excluded excluded f = false → has_linebreak f = false) →
    walk processed_file excluded processed max_size tree path fs = (Returned u, fs', t) →
    ledger_terminated fs' processed_file = true
    ∧ ledger_lines fs processed_file ⊆ ledger_lines fs' processed_file
    ∧ ∀ f, f ∈ visited_folders excluded tree path →
           is_excluded excluded f = false →
           f ∈ processed ∨ f ∈ ledger_lines fs' processed_file.
Proof.
  intros Hlast.
  induction tree as [subs IH] using dirtree_induction.
  intros path fs u fs' t Hterm Hnames.
  cbn [walk visited_folders] in *. rewrite bind_run, visit_folder_run.
  destruct (is_excluded excluded path) eqn:Hexcl.
  { intros [= <- <- <-]. split; [done|]. split; [done|].
    intros f ->%list_elem_of_singleton. congruence. }
  set (body := λ '(name, sub),
         walk processed_file excluded processed max_size sub (OsPath.join path name)).
  set (below := flat_map
         (λ '(name, sub), visited_folders excluded sub (OsPath.join path name)) subs) in *.
  (* the subfolders, one after the other *)
  assert (Hchildren : ∀ fs1 u1 fs2 t2,
            ledger_terminated fs1 processed_file = true →
            for_each body subs fs1 = (Returned u1, fs2, t2) →
            ledger_terminated fs2 processed_file = true
            ∧ ledger_lines fs1 processed_file ⊆ ledger_lines fs2 processed_file
            ∧ ∀ f, f ∈ below → is_excluded excluded f = false →
                   f ∈ processed ∨ f ∈ ledger_lines fs2 processed_file).
  { assert (Hbelow : ∀ f, f ∈ below → is_excluded excluded f = false →
                          has_linebreak f = false)
      by (intros f Hf; apply Hnames; by right).
    clear Hnames. subst below. revert Hbelow.
    induction subs as [|[name sub] subs IHsubs]; intros Hbelow fs1 u1 fs2 t2 Hterm1.
    - intros [= _ <- _]. split; [done|]. split; [done|].
      intros f Hf. by apply elem_of_nil in Hf.
    - apply Forall_cons in IH as [IHsub IH]. cbn [for_each flat_map] in *.
      rewrite bind_run. unfold body at 1.
      destruct (walk _ _ _ _ sub _ fs1) as [[[u2|e] fs3] t3] eqn:Hsub; [|done].
      destruct (for_each body subs fs3) as [[r fs4] t4] eqn:Hrest.
      intros [= -> <- _].
      destruct (IHsub _ _ _ _ _ Hterm1
                  (λ f Hf, Hbelow f (proj2 (elem_of_app _ _ f) (or_introl Hf))) Hsub)
        as (Hterm3 & Hsub13 & Hin3).
      destruct (IHsubs IH
                  (λ f Hf, Hbelow f (proj2 (elem_of_app _ _ f) (or_intror Hf)))
                  _ _ _ _ Hterm3 Hrest)
        as (Hterm4 & Hsub34 & Hin4).
      split; [done|]. split; [by etrans|].
      intros f [Hf|Hf]%elem_of_app Hex.
      + destruct (Hin3 f Hf Hex) as [?|?]; [by left|right; by apply Hsub34].
      + by apply Hin4. }
  destruct (in_ledger processed path) eqn:Hknown.
  - destruct (for_each body subs fs) as [[r fs2] t2] eqn:Hrest.
    intros [= -> <- _].
    destruct (Hchildren _ _ _ _ Hterm Hrest) as (Hterm2 & Hsub & Hin).
    split; [done|]. split; [done|].
    intros f [->|Hf]%elem_of_cons Hex; [|by apply Hin].
    left. by apply in_ledger_elem_of.
  - destruct (process_folder _ _ _ _ _) as [[[u1|e] fs1] t1] eqn:Hbody; [|done].
    destruct (process_folder_ledger _ _ _ _ _ _ _ Hlast Hterm
                (Hnames path ltac:(by left) Hexcl) Hbody) as [Hterm1 Hlines1].
    destruct (for_each body subs fs1) as [[r fs2] t2] eqn:Hrest.
    intros [= -> <- _].
    destruct (Hchildren _ _ _ _ Hterm1 Hrest) as (Hterm2 & Hsub & Hin).
    split; [done|]. split.
    + intros f Hf. apply Hsub. rewrite Hlines1. apply elem_of_app. by left.
    + intros f [->|Hf]%elem_of_cons Hex; [|by apply Hin].
      right. apply Hsub. rewrite Hlines1. apply elem_of_app. right. by left.
Qed.

Lemma for_each_idle {A} (body : A → io unit) (g : A → list string) (items : list A) :
  Forall (λ x, ∀ fs, body x fs = (Returned tt, fs, EvVisit <$> g x)) items →
  ∀ fs, for_each body items fs = (Returned tt, fs, EvVisit <$> flat_map g items).
Proof.
  induction 1 as [|x items Hx _ IH]; intros fs; [done|].
  cbn [for_each flat_map]. by rewrite bind_run, Hx, IH, fmap_app.
Qed.

(** A walk that finds every folder it looks for in the loaded ledger does
    nothing but visit. *)
Lemma walk_idle processed_file excluded processed max_size :
  ∀ tree path fs,
    (∀ f, f ∈ visited_folders excluded tree path →
          is_excluded excluded f = false → f ∈ processed) →
    walk processed_file excluded processed max_size tree path fs
    = (Returned tt, fs, EvVisit <$> visited_folders excluded tree path).
Proof.
  induction tree as [subs IH] using dirtree_induction. intros path fs Hknown.
  cbn [walk visited_folders] in *. rewrite bind_run, visit_folder_run.
  destruct (is_excluded excluded path) eqn:Hexcl; [done|].
  rewrite (proj2 (in_ledger_elem_of processed path)) by (apply Hknown; [by left|done]).
  rewrite (for_each_idle _
             (λ '(name, sub), visited_folders excluded sub (OsPath.join path name))).
  - done.
  - apply Forall_forall. intros [name sub] Hin fs1.
    rewrite Forall_forall in IH. apply (IH _ Hin).
    intros f Hf. apply Hknown. right. apply flat_map_elem_of. by exists (name, sub).
Qed.

(** C7, as the code has it: when a run of [process_images] returns (no task
    has raised), the ledger file was missing or ended with a newline when it
    started, and no path of a folder that is reached and not excluded holds
    a line-boundary character, then a second run over the same tree with the
    same arguments only visits the folders: it scans nothing, submits and
    runs no task, encodes nothing, appends nothing to the ledger, and leaves
    every file as the first run left it. *)
Theorem second_run_is_idle tree root_folder excluded max_size fs fs1 t1 :
  process_images tree root_folder excluded max_size fs = (Returned tt, fs1, t1) →
  ledger_terminated fs (ledger_path root_folder) = true →
  forallb (λ f, negb (has_linebreak f)) (live_folders excluded tree root_folder) = true →
  process_images tree root_folder excluded max_size fs1
  = (Returned tt, fs1, EvVisit <$> visited_folders excluded tree root_folder).
Proof.
  intros Hfirst Hterm Hnames.
  unfold process_images in *. rewrite bind_run, load_ledger_run in *.
  destruct (walk _ _ (ledger_lines fs _) _ _ _ fs) as [[[u|e] fs1'] t1'] eqn:Hwalk; [|done].
  injection Hfirst as <- <-.
  destruct (walk_ledger (ledger_path root_folder) excluded
              (ledger_lines fs (ledger_path root_folder)) max_size
              (ledger_path_last_char root_folder) tree root_folder fs u fs1' t1' Hterm)
    as (_ & Hkept & Hall); [|exact Hwalk|].
  { intros f Hf Hex. rewrite forallb_forall in Hnames.
    apply negb_true_iff, Hnames, list_elem_of_In, list_elem_of_filter. by split. }
  destruct u. rewrite walk_idle; [done|].
  intros f Hf Hex. destruct (Hall f Hf Hex) as [?|?]; [by apply Hkept|done].
Qed.

(** ** Further properties of the walker *)

Lemma is_image_path_spec (path : string) :
  is_image_path path = true ↔ image_path path.
Proof.
  unfold is_image_path, image_path. split.
  - destruct (PyStr.last_char path) as [c|]; [|done].
    intros Hc%Ascii.eqb_eq. by exists c.
  - intros (c & -> & Hc). by apply Ascii.eqb_eq.
Qed.

Lemma ledger_path_plain root_folder : is_image_path (ledger_path root_folder) = false.
Proof. unfold is_image_path. by rewrite ledger_path_last_char. Qed.

Lemma task_spares_plain file_path max_size fs p :
  image_path file_path → is_image_path p = false →
  files_of (reduce_image_size file_path max_size fs) !! p = fs !! p.
Proof.
  intros Himg Hp. apply reduce_image_size_frame.
  - intros ->. apply is_image_path_spec in Himg. congruence.
  - intros ->. unfold is_image_path in Hp. by rewrite last_char_app in Hp.
Qed.

Lemma run_pool_frame max_size tasks p :
  Forall image_path tasks → is_image_path p = false →
  ∀ fs, files_of (run_pool max_size tasks fs) !! p = fs !! p.
Proof.
  intros Htasks Hp. induction Htasks as [|task tasks Htask _ IH]; intros fs; [done|].
  cbn [run_pool]. rewrite bind_run, run_task_run.
  specialize (IH (files_of (reduce_image_size task max_size fs))).
  rewrite bind_run.
  destruct (run_pool max_size tasks _) as [[[rs|e] fs2] t2];
    unfold files_of in *; simpl in *; rewrite IH; by apply task_spares_plain.
Qed.

Lemma completion_order_image_paths fs folder max_size names :
  Forall image_path (completion_order (futures_of fs folder max_size names)).
Proof.
  apply Forall_forall. intros p Hp. rewrite completion_order_perm in Hp.
  revert p Hp. apply Forall_forall, futures_image_paths.
Qed.

Lemma process_folder_frame processed_file folder max_size fs p :
  is_image_path p = false → p ≠ processed_file →
  files_of (process_folder processed_file folder (listing fs folder) max_size fs) !! p
  = fs !! p.
Proof.
  intros Hp Hne.
  destruct (process_folder_cases processed_file folder (listing fs folder) max_size fs)
    as (results & fs2 & trun & Hrun & Hcases); [apply listing_present|].
  pose proof (run_pool_frame max_size _ p
                (completion_order_image_paths fs folder max_size (listing fs folder))
                Hp fs) as Hframe.
  rewrite Hrun in Hframe. unfold files_of in Hframe; simpl in Hframe.
  destruct Hcases as [[_ ->]|(e & _ & ->)]; unfold files_of; simpl; [|done].
  by rewrite lookup_insert_ne.
Qed.

Lemma visit_folder_frame processed_file excluded processed max_size folder fs p :
  is_image_path p = false → p ≠ processed_file →
  files_of (visit_folder processed_file excluded processed max_size folder fs) !! p
  = fs !! p.
Proof.
  intros Hp Hne. rewrite visit_folder_run.
  destruct (is_excluded excluded folder); [done|].
  destruct (in_ledger processed folder); [done|].
  pose proof (process_folder_frame processed_file folder max_size fs p Hp Hne) as Hframe.
  unfold listing in Hframe.
  by destruct (process_folder _ _ _ _ _) as [[[?|?] ?] ?].
Qed.

Lemma for_each_frame {A} (body : A → io unit) (items : list A) (p : string) :
  Forall (λ x, ∀ fs, files_of (body x fs) !! p = fs !! p) items →
  ∀ fs, files_of (for_each body items fs) !! p = fs !! p.
Proof.
  induction 1 as [|x items Hx _ IH]; intros fs; [done|].
  cbn [for_each]. rewrite bind_run. specialize (Hx fs).
  destruct (body x fs) as [[[u|e] fs1] t1]; [|exact Hx].
  specialize (IH fs1). destruct (for_each body items fs1) as [[r fs2] t2].
  unfold files_of in *; simpl in *. congruence.
Qed.

Lemma walk_frame processed_file excluded processed max_size p :
  is_image_path p = false → p ≠ processed_file →
  ∀ tree path fs,
    files_of (walk processed_file excluded processed max_size tree path fs) !! p = fs !! p.
Proof.
  intros Hp Hne. induction tree as [subs IH] using dirtree_induction. intros path fs.
  cbn [walk]. rewrite bind_run.
  pose proof (visit_folder_frame processed_file excluded processed max_size path fs p
                Hp Hne) as Hvisit.
  destruct (visit_folder _ _ _ _ _ _) as [[[descend|e] fs1] t1];
    unfold files_of in Hvisit; simpl in Hvisit; [|done].
  destruct descend; [|done].
  pose proof (for_each_frame
                (λ '(name, sub),
                   walk processed_file excluded processed max_size sub
                     (OsPath.join path name)) subs p) as Heach.
  destruct (for_each _ subs fs1) as [[r fs2] t2] eqn:Hrest.
  unfold files_of; simpl. rewrite <- Hvisit.
  specialize (Heach ltac:(apply Forall_forall; intros [name sub] Hin fs0;
                          rewrite Forall_forall in IH; apply (IH _ Hin)) fs1).
  by rewrite Hrest in Heach.
Qed.

(** X7: a run changes no file but the ledger and files whose path ends in g
    or G (the image files and their [.jpg] siblings), whether it returns or
    raises. *)
Theorem only_images_and_ledger_change tree root_folder excluded max_size fs path :
  is_image_path path = false →
  path ≠ ledger_path root_folder →
  files_of (process_images tree root_folder excluded max_size fs) !! path = fs !! path.
Proof.
  intros Hp Hne. unfold process_images. rewrite bind_run, load_ledger_run.
  pose proof (walk_frame (ledger_path root_folder) excluded
                (ledger_lines fs (ledger_path root_folder)) max_size path Hp Hne
                tree root_folder fs) as Hwalk.
  by destruct (walk _ _ _ _ _ _ _) as [[r fs2] t2].
Qed.

(** *** The ledger and the order of the walk *)

Lemma appended_cons (ev : event) (t : list event) :
  appended (ev :: t) = match ev with EvAppend f => f :: appended t | _ => appended t end.
Proof. by destruct ev. Qed.

Lemma appended_app (t1 t2 : list event) :
  appended (t1 ++ t2) = appended t1 ++ appended t2.
Proof. apply omap_app. Qed.

Lemma visits_cons (ev : event) (t : list event) :
  visits (ev :: t) = match ev with EvVisit f => f :: visits t | _ => visits t end.
Proof. by destruct ev. Qed.

Lemma visits_app (t1 t2 : list event) : visits (t1 ++ t2) = visits t1 ++ visits t2.
Proof. apply omap_app. Qed.

Lemma lines_text_app (l1 l2 : list string) :
  lines_text (l1 ++ l2) = lines_text l1 +:+ lines_text l2.
Proof.
  induction l1 as [|f l1 IH]; [done|].
  cbn [lines_text app]. by rewrite IH, !str_app_assoc.
Qed.

(** The events of the body for one folder that is processed: the scan, the
    submissions, the tasks, and the append when no task has raised. *)
Lemma process_folder_trace processed_file folder max_size fs :
  ∃ trun,
    Forall task_event trun
    ∧ started trun = completion_order (futures_of fs folder max_size (listing fs folder))
    ∧ (trace_of (process_folder processed_file folder (listing fs folder) max_size fs)
       = EvScan folder
           :: (EvSubmit folder <$> futures_of fs folder max_size (listing fs folder))
           ++ trun
           ++ match result_of (process_folder processed_file folder (listing fs folder)
                                 max_size fs) with
              | Returned _ => [EvAppend folder]
              | Raised _ => []
              end).
Proof.
  destruct (process_folder_cases processed_file folder (listing fs folder) max_size fs)
    as (results & fs2 & trun & Hrun & Hcases); [apply listing_present|].
  destruct (run_pool_run max_size
              (completion_order (futures_of fs folder max_size (listing fs folder))) fs)
    as (results' & fs2' & trun' & Hrun' & Hstarted & Htask & _).
  rewrite Hrun in Hrun'. injection Hrun' as <- <- <-.
  exists trun. split; [done|]. split; [done|].
  destruct Hcases as [[_ ->]|(e & _ & ->)]; unfold trace_of, result_of; simpl;
    by rewrite ?app_nil_r.
Qed.

Lemma task_events_quiet (t : list event) :
  Forall task_event t → appended t = [] ∧ visits t = [].
Proof.
  induction 1 as [|ev t Hev _ [IH1 IH2]]; [done|].
  rewrite appended_cons, visits_cons. by destruct ev.
Qed.

Lemma submits_quiet folder (paths : list string) :
  appended (EvSubmit folder <$> paths) = [] ∧ visits (EvSubmit folder <$> paths) = [].
Proof. induction paths as [|p paths [IH1 IH2]]; [done|]. by split. Qed.

(** What one visit does to the ledger and what it reports. *)
Lemma visit_folder_progress processed_file excluded processed max_size folder fs :
  PyStr.last_char processed_file = Some "t"%char →
  ∀ r fs' t,
    visit_folder processed_file excluded processed max_size folder fs = (r, fs', t) →
    visits t = [folder]
    ∧ ledger_text fs' processed_file
      = ledger_text fs processed_file +:+ lines_text (appended t)
    ∧ match r with
      | Returned descend =>
          descend = negb (is_excluded excluded folder)
          ∧ appended t
            = if is_excluded excluded folder || in_ledger processed folder
              then [] else [folder]
      | Raised _ => appended t = []
      end.
Proof.
  intros Hlast r fs' t. rewrite visit_folder_run.
  destruct (is_excluded excluded folder) eqn:Hexcl.
  { intros [= <- <- <-]. by rewrite str_app_nil_r. }
  destruct (in_ledger processed folder) eqn:Hknown.
  { intros [= <- <- <-]. by rewrite str_app_nil_r. }
  fold (listing fs folder).
  destruct (process_folder_trace processed_file folder max_size fs)
    as (trun & Htask & _ & Htrace).
  destruct (task_events_quiet trun Htask) as [Happ Hvis].
  destruct (submits_quiet folder (futures_of fs folder max_size (listing fs folder)))
    as [Happ' Hvis'].
  destruct (process_folder_cases processed_file folder (listing fs folder) max_size fs)
    as (results & fs2 & trun' & Hrun & Hcases); [apply listing_present|].
  assert (Hsame : fs2 !! processed_file = fs !! processed_file).
  { pose proof (run_pool_frame max_size _ processed_file
                  (completion_order_image_paths fs folder max_size (listing fs folder))
                  ltac:(unfold is_image_path; by rewrite Hlast) fs) as Hframe.
    by rewrite Hrun in Hframe. }
  destruct Hcases as [[_ Heq]|(e & _ & Heq)]; rewrite Heq in Htrace |- *;
    unfold trace_of, result_of in Htrace; simpl in Htrace;
    intros [= <- <- <-]; rewrite Htrace;
    rewrite visits_cons, appended_cons, !visits_cons, !appended_cons,
      !visits_app, !appended_app, Happ, Hvis, Happ', Hvis'; simpl.
  - split; [done|]. split; [|done].
    unfold ledger_text. rewrite lookup_insert_eq, Hsame.
    by rewrite str_app_nil_r.
  - split; [done|]. split; [|done].
    unfold ledger_text. by rewrite Hsame, str_app_nil_r.
Qed.

Lemma walk_progress processed_file excluded processed max_size :
  PyStr.last_char processed_file = Some "t"%char →
  ∀ tree path fs r fs' t,
    walk processed_file excluded processed max_size tree path fs = (r, fs', t) →
    ledger_text fs' processed_file
    = ledger_text fs processed_file +:+ lines_text (appended t)
    ∧ appended t `prefix_of` to_process excluded processed tree path
    ∧ visits t `prefix_of` visited_folders excluded tree path
    ∧ (r = Returned tt →
       appended t = to_process excluded processed tree path
       ∧ visits t = visited_folders excluded tree path).
Proof.
  intros Hlast. induction tree as [subs IH] using dirtree_induction.
  intros path fs r fs' t. cbn [walk to_process visited_folders]. rewrite bind_run.
  destruct (visit_folder _ _ _ _ _ fs) as [[rv fs1] t1] eqn:Hvisit.
  destruct (visit_folder_progress _ _ _ _ _ _ Hlast _ _ _ Hvisit)
    as (Hvis1 & Htext1 & Hres1).
  destruct rv as [descend|e].
  2:{ intros [= <- <- <-]. rewrite Hvis1, Hres1 in *.
      split; [done|]. split; [apply prefix_nil|]. split; [|done].
      by apply prefix_cons, prefix_nil. }
  destruct Hres1 as [-> Happ1].
  destruct (is_excluded excluded path) eqn:Hexcl; simpl in *.
  { intros [= <- <- <-]. rewrite app_nil_r, Hvis1, Happ1 in *. done. }
  set (body := λ '(name, sub),
         walk processed_file excluded processed max_size sub (OsPath.join path name)).
  set (todo := λ '(name, sub),
         to_process excluded processed sub (OsPath.join path name)).
  set (seen := λ '(name, sub), visited_folders excluded sub (OsPath.join path name)).
  assert (Hchildren : ∀ fs2 r2 fs3 t2,
            for_each body subs fs2 = (r2, fs3, t2) →
            ledger_text fs3 processed_file
            = ledger_text fs2 processed_file +:+ lines_text (appended t2)
            ∧ appended t2 `prefix_of` flat_map todo subs
            ∧ visits t2 `prefix_of` flat_map seen subs
            ∧ (r2 = Returned tt →
               appended t2 = flat_map todo subs ∧ visits t2 = flat_map seen subs)).
  { clear Hvisit Htext1. induction subs as [|[name sub] subs IHsubs]; intros fs2 r2 fs3 t2.
    - intros [= <- <- <-]. by rewrite str_app_nil_r.
    - apply Forall_cons in IH as [IHsub IH]. cbn [for_each flat_map].
      rewrite bind_run. unfold body at 1.
      destruct (walk _ _ _ _ sub _ fs2) as [[rs fs4] t4] eqn:Hsub.
      destruct (IHsub _ _ _ _ _ Hsub) as (Htext4 & Hpre4 & Hvis4 & Hfull4).
      destruct rs as [[]|e].
      + destruct (for_each body subs fs4) as [[r5 fs5] t5] eqn:Hrest.
        destruct (IHsubs IH _ _ _ _ Hrest) as (Htext5 & Hpre5 & Hvis5 & Hfull5).
        destruct (Hfull4 eq_refl) as [Happ4 Hseen4].
        intros [= <- <- <-]. rewrite appended_app, visits_app, Happ4, Hseen4.
        split; [by rewrite Htext5, Htext4, Happ4, lines_text_app, str_app_assoc|].
        split; [by apply prefix_app|]. split; [by apply prefix_app|].
        intros ->. destruct (Hfull5 eq_refl) as [-> ->]. done.
      + intros [= <- <- <-]. split; [done|].
        split; [by apply prefix_app_r|]. split; [by apply prefix_app_r|done]. }
  destruct (for_each body subs fs1) as [[r2 fs3] t2] eqn:Hrest.
  destruct (Hchildren _ _ _ _ Hrest) as (Htext3 & Hpre3 & Hvis3 & Hfull3).
  intros [= <- <- <-]. rewrite appended_app, visits_app, Hvis1, Happ1.
  split; [by rewrite Htext3, Htext1, Happ1, lines_text_app, str_app_assoc|].
  split; [by apply prefix_app|]. split; [by apply (prefix_app [path])|].
  intros ->. destruct (Hfull3 eq_refl) as [-> ->]. done.
Qed.

(** X8: whether a run returns or raises, the ledger file is only ever
    extended: its text after the run is its text before, followed by one
    line for each folder that the run reports as appended, in order; these
    folders are an initial segment of the folders to process (reached, not
    excluded, not in the ledger loaded at the start, in the order of the
    walk), and all of them when the run returns. *)
Theorem ledger_records_processed_folders tree root_folder excluded max_size fs :
  ledger_text (files_of (process_images tree root_folder excluded max_size fs))
    (ledger_path root_folder)
  = ledger_text fs (ledger_path root_folder)
    +:+ lines_text (appended (trace_of (process_images tree root_folder excluded max_size fs)))
  ∧ appended (trace_of (process_images tree root_folder excluded max_size fs))
    `prefix_of` to_process excluded (ledger_lines fs (ledger_path root_folder))
                  tree root_folder
  ∧ (result_of (process_images tree root_folder excluded max_size fs) = Returned tt →
     appended (trace_of (process_images tree root_folder excluded max_size fs))
     = to_process excluded (ledger_lines fs (ledger_path root_folder)) tree root_folder).
Proof.
  unfold process_images. rewrite bind_run, load_ledger_run.
  destruct (walk _ _ _ _ _ _ _) as [[r fs2] t2] eqn:Hwalk.
  destruct (walk_progress _ _ _ _ (ledger_path_last_char root_folder) _ _ _ _ _ _ Hwalk)
    as (Htext & Hpre & _ & Hfull).
  unfold files_of, trace_of, result_of; simpl.
  split; [done|]. split; [done|]. intros ->. by apply Hfull.
Qed.

(** X9: the folders are visited top-down in the order of the tree, a folder
    before its subfolders and nothing below an excluded folder: the folders
    that a run visits are an initial segment of that list, and all of it when
    the run returns. *)
Theorem folders_are_visited_top_down tree root_folder excluded max_size fs :
  visits (trace_of (process_images tree root_folder excluded max_size fs))
  `prefix_of` visited_folders excluded tree root_folder
  ∧ (result_of (process_images tree root_folder excluded max_size fs) = Returned tt →
     visits (trace_of (process_images tree root_folder excluded max_size fs))
     = visited_folders excluded tree root_folder).
Proof.
  unfold process_images. rewrite bind_run, load_ledger_run.
  destruct (walk _ _ _ _ _ _ _) as [[r fs2] t2] eqn:Hwalk.
  destruct (walk_progress _ _ _ _ (ledger_path_last_char root_folder) _ _ _ _ _ _ Hwalk)
    as (_ & _ & Hvis & Hfull).
  unfold files_of, trace_of, result_of; simpl.
  split; [done|]. intros ->. by apply Hfull.
Qed.

(** *** Folders that are already in the ledger *)

Lemma walk_spares_known processed_file excluded processed max_size f :
  f ∈ processed →
  ∀ tree path fs,
    Forall (spares_folder f)
      (trace_of (walk processed_file excluded processed max_size tree path fs)).
Proof.
  intros Hknown. induction tree as [subs IH] using dirtree_induction. intros path fs.
  cbn [walk]. rewrite bind_run, visit_folder_run.
  assert (Hvisit : spares_folder f (EvVisit path)) by (by repeat split).
  destruct (is_excluded excluded path).
  { unfold trace_of; simpl. by repeat constructor. }
  assert (Hchildren : ∀ fs1,
            Forall (spares_folder f)
              (trace_of (for_each
                 (λ '(name, sub),
                    walk processed_file excluded processed max_size sub
                      (OsPath.join path name)) subs fs1))).
  { apply for_each_events. apply Forall_forall. intros [name sub] Hin fs1.
    rewrite Forall_forall in IH. apply (IH _ Hin). }
  destruct (in_ledger processed path) eqn:Hpath.
  - specialize (Hchildren fs). destruct (for_each _ subs fs) as [[r fs2] t2].
    unfold trace_of in *; simpl in *. by constructor.
  - assert (Hne : path ≠ f).
    { intros ->. apply in_ledger_elem_of in Hknown. congruence. }
    fold (listing fs path).
    destruct (process_folder_trace processed_file path max_size fs)
      as (trun & Htask & _ & Htrace).
    assert (Hfolder : Forall (spares_folder f)
              (trace_of (process_folder processed_file path (listing fs path) max_size fs))).
    { rewrite Htrace. constructor; [repeat split; congruence|].
      rewrite !Forall_app. repeat split.
      - apply Forall_fmap, Forall_true. intros p. repeat split; congruence.
      - eapply Forall_impl; [exact Htask|]. intros []; simpl; try done; by repeat split.
      - destruct (result_of _); repeat constructor; congruence. }
    destruct (process_folder _ _ _ _ _) as [[[u|e] fs1] t1];
      unfold trace_of in Hfolder; simpl in Hfolder.
    + specialize (Hchildren fs1). destruct (for_each _ subs fs1) as [[r fs2] t2].
      unfold trace_of in *; simpl in *. constructor; [done|]. apply Forall_app. by split.
    + unfold trace_of; simpl. by constructor.
Qed.

(** X10: a folder whose path is a line of the ledger when the run starts is
    never scanned, has no task submitted and is not appended again, even when
    it holds images of more than [max_size] bytes. *)
Theorem known_folders_are_skipped tree root_folder excluded max_size fs folder :
  folder ∈ PyStr.splitlines (ledger_text fs (ledger_path root_folder)) →
  Forall (spares_folder folder)
    (trace_of (process_images tree root_folder excluded max_size fs)).
Proof.
  intros Hknown. unfold process_images. rewrite bind_run, load_ledger_run.
  assert (Hin : folder ∈ ledger_lines fs (ledger_path root_folder)).
  { unfold ledger_lines, ledger_text in *.
    destruct (fs !! ledger_path root_folder); [done|].
    by apply elem_of_nil in Hknown. }
  pose proof (walk_spares_known (ledger_path root_folder) excluded _ max_size folder Hin
                tree root_folder fs) as Hwalk.
  by destruct (walk _ _ _ _ _ _ _) as [[r fs2] t2].
Qed.

Lemma splitlines_lines_text (folders : list string) :
  Forall (λ f, has_linebreak f = false) folders →
  PyStr.splitlines (lines_text folders) = folders.
Proof.
  unfold PyStr.splitlines. induction 1 as [|f folders Hf _ IH]; [done|].
  cbn [lines_text]. rewrite <- str_app_assoc, splitlines_from_app_newline.
  by rewrite (splitlines_line f Hf), IH.
Qed.

(** X11: the ledger reads back what was written: a ledger file that holds
    one appended line for each of some folders, none of whose paths contains
    a line-boundary character, is loaded as exactly these folders in that
    order. *)
Theorem ledger_round_trip processed_file folders fs :
  forallb (λ f, negb (has_linebreak f)) folders = true →
  load_ledger processed_file (<[processed_file := lines_text folders]> fs)
  = (Returned folders, <[processed_file := lines_text folders]> fs, []).
Proof.
  intros Hplain. rewrite load_ledger_run. unfold ledger_lines.
  rewrite lookup_insert_eq, splitlines_lines_text; [done|].
  apply Forall_forall. intros f Hf. rewrite forallb_forall in Hplain.
  by apply negb_true_iff, Hplain, list_elem_of_In.
Qed.

Lemma empty_name_excludes excluded (f : string) :
  "" ∈ excluded → is_excluded excluded f = true.
Proof.
  intros Hin. unfold is_excluded. apply existsb_exists. exists "".
  split; [by apply list_elem_of_In|]. apply endswith_spec. exists f.
  by rewrite str_app_nil_r.
Qed.

(** X12: when the root folder itself is excluded (its path ends with an
    excluded name, as every path does when the empty string is among the
    names), a run visits the root and does nothing else: no file changes and
    no ledger file is created. *)
Theorem excluded_root_does_nothing tree root_folder excluded max_size fs :
  is_excluded excluded root_folder = true ∨ "" ∈ excluded →
  process_images tree root_folder excluded max_size fs
  = (Returned tt, fs, [EvVisit root_folder]).
Proof.
  intros Hexcl.
  assert (Hroot : is_excluded excluded root_folder = true)
    by (destruct Hexcl; [done|by apply empty_name_excludes]).
  unfold process_images. by rewrite bind_run, load_ledger_run, walk_excluded.
Qed.


(** *** Trees without large images *)

Lemma filter_none {A} (P : A → Prop) `{∀ x, Decision (P x)} (l : list A) :
  (∀ x, x ∈ l → ¬ P x) → filter P l = [].
Proof.
  induction l as [|x l IH]; intros Hnone; [done|].
  rewrite filter_cons, decide_False by (apply Hnone; by left).
  apply IH. intros y Hy. apply Hnone. by right.
Qed.

(** On a disk that differs from a quiet one in the ledger only, the scan of
    the folder submits nothing. *)
Lemma quiet_folder_futures processed_file (fs fs1 : files) max_size folder :
  PyStr.last_char processed_file = Some "t"%char →
  (∀ p, p ≠ processed_file → fs1 !! p = fs !! p) →
  quiet_folder fs max_size folder = true →
  futures_of fs1 folder max_size (listing fs1 folder) = [].
Proof.
  intros Hlast Hagree Hquiet. unfold futures_of.
  rewrite filter_none; [done|]. intros name Hin Hover.
  unfold oversized in Hover. apply andb_true_iff in Hover as [Himg Hsize].
  assert (Hne : OsPath.join folder name ≠ processed_file).
  { intros Heq. destruct (joined_image_path folder name Himg) as (c & Hc & Hg).
    rewrite Heq, Hlast in Hc. by injection Hc as <-. }
  apply listing_directly_in in Hin as (Hname & Hslash & Hsome).
  rewrite (Hagree _ Hne) in Hsize, Hsome.
  unfold quiet_folder in Hquiet. rewrite forallb_forall in Hquiet.
  specialize (Hquiet name). unfold oversized in Hquiet. rewrite Himg in Hquiet.
  simpl in Hquiet. rewrite Hsize in Hquiet.
  assert (false = true); [|done]. apply Hquiet, list_elem_of_In.
  by apply listing_directly_in.
Qed.

Lemma walk_quiet processed_file excluded processed max_size (fs : files) :
  PyStr.last_char processed_file = Some "t"%char →
  ∀ tree path (fs1 : files),
    (∀ p, p ≠ processed_file → fs1 !! p = fs !! p) →
    (∀ f, f ∈ visited_folders excluded tree path → is_excluded excluded f = false →
          quiet_folder fs max_size f = true) →
    ∃ (fs2 : files) t,
      walk processed_file excluded processed max_size tree path fs1 = (Returned tt, fs2, t)
      ∧ (∀ p, p ≠ processed_file → fs2 !! p = fs !! p)
      ∧ Forall walker_event t.
Proof.
  intros Hlast. induction tree as [subs IH] using dirtree_induction.
  intros path fs1 Hagree Hquiet. cbn [walk visited_folders] in *.
  rewrite bind_run, visit_folder_run.
  destruct (is_excluded excluded path) eqn:Hexcl.
  { exists fs1, [EvVisit path]. split; [done|]. split; [done|]. by repeat constructor. }
  set (body := λ '(name, sub),
         walk processed_file excluded processed max_size sub (OsPath.join path name)).
  assert (Hchildren : ∀ fs2 : files,
            (∀ p, p ≠ processed_file → fs2 !! p = fs !! p) →
            ∃ (fs3 : files) t,
              for_each body subs fs2 = (Returned tt, fs3, t)
              ∧ (∀ p, p ≠ processed_file → fs3 !! p = fs !! p)
              ∧ Forall walker_event t).
  { assert (Hbelow : ∀ f, f ∈ flat_map
                (λ '(name, sub), visited_folders excluded sub (OsPath.join path name)) subs →
              is_excluded excluded f = false → quiet_folder fs max_size f = true)
      by (intros f Hf; apply Hquiet; by right).
    clear Hquiet. induction subs as [|[name sub] subs IHsubs]; intros fs2 Hagree2.
    - exists fs2, []. by repeat split.
    - apply Forall_cons in IH as [IHsub IH]. cbn [for_each flat_map] in *.
      destruct (IHsub (OsPath.join path name) fs2 Hagree2) as (fs3 & t3 & Hsub & Hagree3 & Hev3).
      { intros f Hf. apply Hbelow, elem_of_app. by left. }
      destruct (IHsubs IH) with (fs2 := fs3) as (fs4 & t4 & Hrest & Hagree4 & Hev4);
        [|done|].
      { intros f Hf. apply Hbelow, elem_of_app. by right. }
      simpl in Hsub.
      exists fs4, (t3 ++ t4). rewrite bind_run. unfold body at 1. rewrite Hsub, Hrest.
      split; [done|]. split; [done|]. by apply Forall_app. }
  destruct (in_ledger processed path) eqn:Hknown.
  - destruct (Hchildren fs1 Hagree) as (fs3 & t & -> & Hagree3 & Hev).
    exists fs3, (EvVisit path :: t). split; [done|]. split; [done|]. by constructor.
  - fold (listing fs1 path).
    destruct (process_folder_cases processed_file path (listing fs1 path) max_size fs1)
      as (results & fs2 & trun & Hrun & Hcases); [apply listing_present|].
    rewrite (quiet_folder_futures processed_file fs fs1 max_size path Hlast Hagree) in *
      by (apply Hquiet; [by left|done]).
    rewrite (proj1 (Permutation_nil_r _) (completion_order_perm [])) in Hrun.
    injection Hrun as <- <- <-.
    destruct Hcases as [[_ ->]|(e & He & _)]; [|by apply elem_of_nil in He].
    destruct (Hchildren
                (<[processed_file := default "" (fs1 !! processed_file) +:+ path +:+ newline]>
                   fs1))
      as (fs3 & t & -> & Hagree3 & Hev).
    { intros p Hp. rewrite lookup_insert_ne by done. by apply Hagree. }
    eexists fs3, _. split; [reflexivity|]. split; [done|].
    simpl. repeat constructor. done.
Qed.

(** X14: a run over a tree in which no folder that is reached and not
    excluded lists an image of more than [max_size] bytes returns, submits
    and runs no task, encodes nothing, and leaves every file but the ledger as
    it was. *)
Theorem quiet_tree_is_left_alone tree root_folder excluded max_size fs :
  forallb (quiet_folder fs max_size) (live_folders excluded tree root_folder) = true →
  ∃ (fs' : files) t,
    process_images tree root_folder excluded max_size fs = (Returned tt, fs', t)
    ∧ Forall walker_event t
    ∧ ∀ path, path ≠ ledger_path root_folder → fs' !! path = fs !! path.
Proof.
  intros Hquiet. unfold process_images. rewrite bind_run, load_ledger_run.
  destruct (walk_quiet (ledger_path root_folder) excluded
              (ledger_lines fs (ledger_path root_folder)) max_size fs
              (ledger_path_last_char root_folder) tree root_folder fs)
    as (fs2 & t & -> & Hagree & Hev); [done| |].
  - intros f Hf Hex. rewrite forallb_forall in Hquiet.
    apply Hquiet, list_elem_of_In, list_elem_of_filter. by split.
  - by exists fs2, t.
Qed.

(** *** Taking up the work after a run that raised *)

Lemma to_process_live excluded processed :
  ∀ tree path f,
    f ∈ to_process excluded processed tree path →
    f ∈ visited_folders excluded tree path ∧ is_excluded excluded f = false.
Proof.
  induction tree as [subs IH] using dirtree_induction. intros path f.
  cbn [to_process visited_folders].
  destruct (is_excluded excluded path) eqn:Hexcl; [by intros ?%elem_of_nil|].
  intros [Hf|Hf]%elem_of_app.
  - destruct (in_ledger processed path); [by apply elem_of_nil in Hf|].
    apply list_elem_of_singleton in Hf as ->. split; [by left|done].
  - apply flat_map_elem_of in Hf as ([name sub] & Hin & Hf).
    rewrite Forall_forall in IH. destruct (IH _ Hin _ _ Hf) as [Hvis Hex].
    split; [|done]. right. apply flat_map_elem_of. by exists (name, sub).
Qed.

Lemma splitlines_after_appends (text : string) (folders : list string) :
  terminated text → Forall (λ f, has_linebreak f = false) folders →
  PyStr.splitlines (text +:+ lines_text folders) = PyStr.splitlines text ++ folders.
Proof.
  intros [->|[pre ->]] Hplain.
  - rewrite str_app_nil_l. by apply splitlines_lines_text.
  - unfold PyStr.splitlines. rewrite splitlines_from_app_newline.
    f_equal. by apply splitlines_lines_text.
Qed.

(** X15: the ledger makes a later run take up the work where an earlier one
    stopped: when the ledger was missing or ended with a newline and no
    folder that is reached and not excluded has a line-boundary character in
    its path, every folder
    that a run has appended, whether that run returned or raised, is left
    unscanned and is not appended again by the next run. *)
Theorem appended_folders_are_skipped_next_time
    tree root_folder excluded max_size fs folder :
  ledger_terminated fs (ledger_path root_folder) = true →
  forallb (λ f, negb (has_linebreak f)) (live_folders excluded tree root_folder) = true →
  folder ∈ appended (trace_of (process_images tree root_folder excluded max_size fs)) →
  Forall (spares_folder folder)
    (trace_of (process_images tree root_folder excluded max_size
                 (files_of (process_images tree root_folder excluded max_size fs)))).
Proof.
  intros Hterm Hplain Hfolder.
  set (L := ledger_path root_folder) in *.
  assert (Hrun : ∃ r fs1 t1,
            process_images tree root_folder excluded max_size fs = (r, fs1, t1))
    by (destruct (process_images _ _ _ _ _) as [[r fs1] t1]; eauto).
  destruct Hrun as (r & fs1 & t1 & Hrun).
  unfold process_images in Hrun. rewrite bind_run, load_ledger_run in Hrun.
  destruct (walk _ _ _ _ _ _ fs) as [[r' fs1'] t1'] eqn:Hwalk.
  destruct (walk_progress _ _ _ _ (ledger_path_last_char root_folder) _ _ _ _ _ _ Hwalk)
    as (Htext & Hpre & _ & _).
  injection Hrun as <- <- <-. simpl in *.
  assert (Hfirst : process_images tree root_folder excluded max_size fs = (r', fs1', t1')).
  { unfold process_images. by rewrite bind_run, load_ledger_run, Hwalk. }
  rewrite Hfirst in Hfolder |- *. unfold trace_of, files_of in *; simpl in *.
  assert (Hknown : folder ∈ ledger_lines fs1' L).
  { assert (Hlines : PyStr.splitlines (ledger_text fs1' L)
                     = PyStr.splitlines (ledger_text fs L) ++ appended t1').
    { fold L in Htext. rewrite Htext. apply splitlines_after_appends.
      - apply ledger_terminated_spec in Hterm. unfold ledger_text.
        destruct (fs !! L); [done|by left].
      - apply Forall_forall. intros f Hf.
        destruct Hpre as [rest Hrest].
        assert (Hin : f ∈ to_process excluded (ledger_lines fs L) tree root_folder)
          by (fold L in Hrest; rewrite Hrest; apply elem_of_app; by left).
        apply to_process_live in Hin as [Hvis Hex].
        rewrite forallb_forall in Hplain.
        apply negb_true_iff, Hplain, list_elem_of_In, list_elem_of_filter. by split. }
    assert (Hin : folder ∈ PyStr.splitlines (ledger_text fs1' L))
      by (rewrite Hlines; apply elem_of_app; by right).
    unfold ledger_lines, ledger_text in *.
    destruct (fs1' !! L); [done|]. by apply elem_of_nil in Hin. }
  unfold process_images. rewrite bind_run, load_ledger_run. fold L.
  pose proof (walk_spares_known L excluded _ max_size folder Hknown
                tree root_folder fs1') as Hspares.
  by destruct (walk _ _ _ _ _ _ fs1') as [[r2 fs2] t2].
Qed.

End Program.

(** ** The program on concrete disks *)

Abbreviation toy_reduce :=
  (reduce_image_size Toy.image Toy.decode Toy.img_format Toy.convert_rgb Toy.encode).
Abbreviation toy_process :=
  (process_images Toy.image Toy.decode Toy.img_format Toy.convert_rgb Toy.encode
     Toy.completion_order).
Abbreviation toy_visit :=
  (visit_folder Toy.image Toy.decode Toy.img_format Toy.convert_rgb Toy.encode
     Toy.completion_order).
Abbreviation toy_walk :=
  (walk Toy.image Toy.decode Toy.img_format Toy.convert_rgb Toy.encode
     Toy.completion_order).

(** C1 fails on the code: a JPEG of 101 bytes that the encoder brings to 60
    bytes at quality 50 is encoded six times over itself, then removed, and
    the rename of the removed path raises: no file is left at the path. *)
Theorem jpeg_that_fits_is_destroyed :
  60 < Os.size_of (Toy.jpeg 100)
  ∧ Os.size_of (Toy.encode ("JPEG", 100%nat) "a.jpg" 50) ≤ 60
  ∧ toy_reduce "a.jpg" 60 Toy.disk_jpeg
    = (Raised (FileNotFoundError "a.jpg"), ∅, EvSave "a.jpg" <$> [75; 70; 65; 60; 55; 50])
  ∧ files_of (toy_reduce "a.jpg" 60 Toy.disk_jpeg) !! "a.jpg" = None.
Proof. repeat split; vm_compute; first [reflexivity | congruence]. Qed.

(** C2 fails on the code: a JPEG that no quality brings to 5 bytes is
    encoded sixteen times over itself and then removed; the call returns and
    no file is left at the path. *)
Theorem jpeg_that_cannot_fit_is_deleted :
  Forall (λ q, 5 < Os.size_of (Toy.encode ("JPEG", 100%nat) "a.jpg" q)) (80 :: encode_qualities)
  ∧ toy_reduce "a.jpg" 5 Toy.disk_jpeg
    = (Returned tt, ∅, EvSave "a.jpg" <$> encode_qualities)
  ∧ files_of (toy_reduce "a.jpg" 5 Toy.disk_jpeg) !! "a.jpg" = None.
Proof.
  split; [|split; vm_compute; reflexivity].
  unfold encode_qualities; simpl. repeat constructor; vm_compute; reflexivity.
Qed.

(** The JPEG of 101 bytes under a ceiling of 60: the [with] block leaves 60
    bytes at the path, and the call destroys them. *)
Lemma non_png_success_destroys_file_witness :
  "a.jpg" = "a.jpg"
  ∧ toy_reduce "a.jpg" 60 Toy.disk_jpeg
    = (Raised (FileNotFoundError "a.jpg"),
       delete "a.jpg" ({[ "a.jpg" := Toy.jpeg 59 ]} : files),
       EvSave "a.jpg" <$> [75; 70; 65; 60; 55; 50])
  ∧ files_of (toy_reduce "a.jpg" 60 Toy.disk_jpeg) !! "a.jpg" = None.
Proof.
  apply (non_png_success_destroys_file Toy.image Toy.decode Toy.img_format
           Toy.convert_rgb Toy.encode Toy.disk_jpeg "a.jpg" 60
           (Toy.jpeg 100) ("JPEG", 100%nat) "a.jpg"
           {[ "a.jpg" := Toy.jpeg 59 ]} (EvSave "a.jpg" <$> [75; 70; 65; 60; 55; 50])
           (Toy.jpeg 59)).
  - reflexivity.
  - reflexivity.
  - reflexivity.
  - vm_compute. reflexivity.
  - reflexivity.
  - unfold Os.size_of. simpl. lia.
Defined.

(** A PNG alone on its disk. *)
Lemma png_without_sibling_raises_witness :
  toy_reduce "a.png" 60 Toy.disk_png
  = (Raised (FileNotFoundError ((OsPath.splitext "a.png").1 +:+ ".jpg")), Toy.disk_png, []).
Proof.
  apply (png_without_sibling_raises Toy.image Toy.decode Toy.img_format
           Toy.convert_rgb Toy.encode Toy.disk_png "a.png" 60
           (Toy.png 100) ("PNG", 100%nat)).
  - reflexivity.
  - reflexivity.
  - reflexivity.
  - vm_compute. reflexivity.
Defined.

(** C6 as stated fails: the first encode of a JPEG of 101 bytes under a
    ceiling of 60 is at quality 75, not 80. *)
Lemma first_encode_is_not_at_80 :
  head (save_qualities (trace_of (toy_reduce "a.jpg" 60 Toy.disk_jpeg))) = Some 75
  ∧ head (save_qualities (trace_of (toy_reduce "a.jpg" 60 Toy.disk_jpeg))) ≠ Some 80.
Proof. split; vm_compute; [reflexivity|discriminate]. Qed.




(** With [b] excluded, [root/b/c] and its large JPEG are never visited. *)
Lemma excluded_folders_untouched_witness :
  EvVisit "root/b/c" ∉ trace_of (toy_process Toy.tree "root" ["b"] 60 Toy.disk_photos).
Proof.
  apply (excluded_folders_untouched Toy.image Toy.decode Toy.img_format Toy.convert_rgb
           Toy.encode Toy.completion_order Toy.tree "root" ["b"] 60 Toy.disk_photos
           "root/b/c").
  - vm_compute. reflexivity.
  - right. apply (bool_decide_unpack _). vm_compute. reflexivity.
  - apply (bool_decide_unpack _). vm_compute. reflexivity.
Defined.

(** C7 as stated fails: the first run raises at [root/a], which therefore is
    not in the ledger, and the second run scans [root/a] and submits the
    task for [root/a/x.jpg] again. *)
Lemma second_run_after_failure_works_again :
  result_of (toy_process Toy.tree "root" [] 60 Toy.disk_corrupt)
  = Raised (UnidentifiedImageError "root/a/x.jpg")
  ∧ submitted
      (trace_of
         (toy_process Toy.tree "root" [] 60
            (files_of (toy_process Toy.tree "root" [] 60 Toy.disk_corrupt))))
    = ["root/a/x.jpg"]
  ∧ submitted
      (trace_of
         (toy_process Toy.tree "root" [] 60
            (files_of (toy_process Toy.tree "root" [] 60 Toy.disk_corrupt))))
    ≠ [].
Proof. repeat split; vm_compute; first [reflexivity|discriminate]. Qed.

(** With [b] excluded the first run over the photo disk returns: the PNG of
    [root/a] is replaced by its small JPEG sibling. The second run only
    visits. *)
Lemma second_run_is_idle_witness :
  toy_process Toy.tree "root" ["b"] 60
    (files_of (toy_process Toy.tree "root" ["b"] 60 Toy.disk_photos))
  = (Returned tt,
     files_of (toy_process Toy.tree "root" ["b"] 60 Toy.disk_photos),
     EvVisit <$> visited_folders ["b"] Toy.tree "root").
Proof.
  apply (second_run_is_idle Toy.image Toy.decode Toy.img_format Toy.convert_rgb
           Toy.encode Toy.completion_order (λ tasks, reflexivity tasks)
           Toy.tree "root" ["b"] 60 Toy.disk_photos
           (files_of (toy_process Toy.tree "root" ["b"] 60 Toy.disk_photos))
           (trace_of (toy_process Toy.tree "root" ["b"] 60 Toy.disk_photos))).
  - vm_compute. reflexivity.
  - reflexivity.
  - reflexivity.
Defined.

(** *** Why the second run needs a well-ended ledger and plain folder paths *)

(** A ledger that does not end with a newline swallows the first folder
    appended to it: both runs return, and the second appends again. *)
Example cut_ledger_is_appended_twice :
  toy_process (Dir []) "root" [] 60 Toy.disk_cut_ledger
  = (Returned tt, {[ "root/.processed_folders.txt" := "xroot" +:+ newline ]},
     [EvVisit "root"; EvScan "root"; EvAppend "root"])
  ∧ toy_process (Dir []) "root" [] 60
      {[ "root/.processed_folders.txt" := "xroot" +:+ newline ]}
    = (Returned tt,
       {[ "root/.processed_folders.txt" := "xroot" +:+ newline +:+ "root" +:+ newline ]},
       [EvVisit "root"; EvScan "root"; EvAppend "root"]).
Proof. split; vm_compute; reflexivity. Qed.

(** A folder path with a carriage return is read back as two lines, neither
    of which is the path: the second run appends it again. *)
Example odd_folder_is_appended_twice :
  toy_process (Dir []) Toy.odd_root [] 60 ∅
  = (Returned tt, {[ ledger_path Toy.odd_root := Toy.odd_root +:+ newline ]},
     [EvVisit Toy.odd_root; EvScan Toy.odd_root; EvAppend Toy.odd_root])
  ∧ toy_process (Dir []) Toy.odd_root [] 60
      {[ ledger_path Toy.odd_root := Toy.odd_root +:+ newline ]}
    = (Returned tt,
       {[ ledger_path Toy.odd_root
            := Toy.odd_root +:+ newline +:+ Toy.odd_root +:+ newline ]},
       [EvVisit Toy.odd_root; EvScan Toy.odd_root; EvAppend Toy.odd_root]).
Proof. split; vm_compute; reflexivity. Qed.

(** ** The further properties on concrete disks *)

(** A PNG and its too large [.jpg] sibling under a ceiling of 60: the sixth
    encode, at quality 50, fits. *)
Lemma png_is_replaced_by_first_fitting_encode_witness :
  toy_reduce "a.png" 60 Toy.disk_pair
  = (Returned tt,
     <["a.png" := Toy.encode (Toy.convert_rgb ("PNG", 100%nat))
                    ((OsPath.splitext "a.png").1 +:+ ".jpg") 50]>
       (delete ((OsPath.splitext "a.png").1 +:+ ".jpg") Toy.disk_pair),
     EvSave ((OsPath.splitext "a.png").1 +:+ ".jpg") <$> take 6 encode_qualities).
Proof.
  apply (png_is_replaced_by_first_fitting_encode Toy.image Toy.decode Toy.img_format
           Toy.convert_rgb Toy.encode Toy.disk_pair "a.png" 60
           (Toy.png 100) ("PNG", 100%nat) (Toy.jpeg 100) 5%nat 50).
  - reflexivity.
  - reflexivity.
  - reflexivity.
  - apply (bool_decide_unpack _). vm_compute. reflexivity.
  - vm_compute. reflexivity.
  - vm_compute. reflexivity.
  - reflexivity.
  - apply (bool_decide_unpack _). vm_compute. reflexivity.
  - unfold Os.size_of. simpl. lia.
Defined.

(** A PNG next to a small [.jpg] sibling. *)
Lemma png_is_replaced_by_small_sibling_witness :
  toy_reduce "a.png" 60 Toy.disk_small_pair
  = (Returned tt,
     <["a.png" := Toy.jpeg 10]>
       (delete ((OsPath.splitext "a.png").1 +:+ ".jpg") Toy.disk_small_pair),
     []).
Proof.
  apply (png_is_replaced_by_small_sibling Toy.image Toy.decode Toy.img_format
           Toy.convert_rgb Toy.encode Toy.disk_small_pair "a.png" 60
           (Toy.png 100) ("PNG", 100%nat) (Toy.jpeg 10)).
  - reflexivity.
  - reflexivity.
  - reflexivity.
  - apply (bool_decide_unpack _). vm_compute. reflexivity.
  - vm_compute. reflexivity.
  - unfold Os.size_of. simpl. lia.
Defined.

(** A PNG and its too large sibling under a ceiling of 5, which no encode
    reaches. *)
Lemma png_that_cannot_fit_loses_its_sibling_witness :
  toy_reduce "a.png" 5 Toy.disk_pair
  = (Returned tt, delete ((OsPath.splitext "a.png").1 +:+ ".jpg") Toy.disk_pair,
     EvSave ((OsPath.splitext "a.png").1 +:+ ".jpg") <$> encode_qualities)
  ∧ files_of (toy_reduce "a.png" 5 Toy.disk_pair) !! "a.png" = Some (Toy.png 100).
Proof.
  apply (png_that_cannot_fit_loses_its_sibling Toy.image Toy.decode Toy.img_format
           Toy.convert_rgb Toy.encode Toy.disk_pair "a.png" 5
           (Toy.png 100) ("PNG", 100%nat) (Toy.jpeg 100)).
  - reflexivity.
  - reflexivity.
  - reflexivity.
  - apply (bool_decide_unpack _). vm_compute. reflexivity.
  - vm_compute. reflexivity.
  - vm_compute. reflexivity.
  - apply (bool_decide_unpack _). vm_compute. reflexivity.
Defined.

(** A path that is not on the disk. *)
Lemma open_failure_changes_nothing_witness :
  toy_reduce "b.jpg" 60 Toy.disk_png
  = (Raised (FileNotFoundError "b.jpg"), Toy.disk_png, []).
Proof.
  apply (open_failure_changes_nothing Toy.image Toy.decode Toy.img_format
           Toy.convert_rgb Toy.encode "b.jpg" 60 Toy.disk_png
           (FileNotFoundError "b.jpg") Toy.disk_png []).
  reflexivity.
Defined.


(** The task for [root/a/img1.png] and the file [root/b/img2.jpg]. *)
Lemma only_input_and_sibling_change_witness :
  files_of (toy_reduce "root/a/img1.png" 60 Toy.disk_photos) !! "root/b/img2.jpg"
  = Toy.disk_photos !! "root/b/img2.jpg".
Proof.
  apply (only_input_and_sibling_change Toy.image Toy.decode Toy.img_format
           Toy.convert_rgb Toy.encode "root/a/img1.png" 60 Toy.disk_photos
           "root/b/img2.jpg").
  - apply (bool_decide_unpack _). vm_compute. reflexivity.
  - apply (bool_decide_unpack _). vm_compute. reflexivity.
Defined.

(** A run over the photo disk and the path [root/notes.txt]. *)
Lemma only_images_and_ledger_change_witness :
  files_of (toy_process Toy.tree "root" [] 60 Toy.disk_photos) !! "root/notes.txt"
  = Toy.disk_photos !! "root/notes.txt".
Proof.
  apply (only_images_and_ledger_change Toy.image Toy.decode Toy.img_format
           Toy.convert_rgb Toy.encode Toy.completion_order (λ tasks, reflexivity tasks)
           Toy.tree "root" [] 60 Toy.disk_photos "root/notes.txt").
  - reflexivity.
  - apply (bool_decide_unpack _). vm_compute. reflexivity.
Defined.

(** The run that raises at [root/a]: the ledger has got the line of
    [root]. *)
Lemma ledger_records_processed_folders_witness :
  ledger_text (files_of (toy_process Toy.tree "root" [] 60 Toy.disk_corrupt))
    (ledger_path "root")
  = ledger_text Toy.disk_corrupt (ledger_path "root")
    +:+ lines_text (appended (trace_of (toy_process Toy.tree "root" [] 60 Toy.disk_corrupt))).
Proof.
  apply (ledger_records_processed_folders Toy.image Toy.decode Toy.img_format
           Toy.convert_rgb Toy.encode Toy.completion_order (λ tasks, reflexivity tasks)
           Toy.tree "root" [] 60 Toy.disk_corrupt).
Defined.

Lemma folders_are_visited_top_down_witness :
  visits (trace_of (toy_process Toy.tree "root" [] 60 Toy.disk_corrupt))
  `prefix_of` visited_folders [] Toy.tree "root".
Proof.
  apply (folders_are_visited_top_down Toy.image Toy.decode Toy.img_format
           Toy.convert_rgb Toy.encode Toy.completion_order (λ tasks, reflexivity tasks)
           Toy.tree "root" [] 60 Toy.disk_corrupt).
Defined.

(** The photo disk with [root/a] in the ledger: the large PNG of [root/a]
    stays as it is. *)
Lemma known_folders_are_skipped_witness :
  Forall (spares_folder "root/a")
    (trace_of (toy_process Toy.tree "root" ["b"] 60 Toy.disk_marked)).
Proof.
  apply (known_folders_are_skipped Toy.image Toy.decode Toy.img_format
           Toy.convert_rgb Toy.encode Toy.completion_order
           Toy.tree "root" ["b"] 60 Toy.disk_marked "root/a").
  apply (bool_decide_unpack _). vm_compute. reflexivity.
Defined.

Lemma ledger_round_trip_witness :
  load_ledger "root/.processed_folders.txt"
    (<["root/.processed_folders.txt" := lines_text ["root"; "root/a"]]> ∅)
  = (Returned ["root"; "root/a"],
     <["root/.processed_folders.txt" := lines_text ["root"; "root/a"]]> ∅, []).
Proof.
  apply (ledger_round_trip "root/.processed_folders.txt" ["root"; "root/a"] ∅).
  reflexivity.
Defined.

(** The empty string among the excluded names. *)
Lemma excluded_root_does_nothing_witness :
  toy_process Toy.tree "root" [""] 60 Toy.disk_photos
  = (Returned tt, Toy.disk_photos, [EvVisit "root"]).
Proof.
  apply (excluded_root_does_nothing Toy.image Toy.decode Toy.img_format
           Toy.convert_rgb Toy.encode Toy.completion_order
           Toy.tree "root" [""] 60 Toy.disk_photos).
  right. apply (bool_decide_unpack _). vm_compute. reflexivity.
Defined.


(** The disk without large images. *)
Lemma quiet_tree_is_left_alone_witness :
  ∃ (fs' : files) t,
    toy_process Toy.tree "root" [] 60 Toy.disk_small = (Returned tt, fs', t)
    ∧ Forall walker_event t
    ∧ ∀ path, path ≠ ledger_path "root" → fs' !! path = Toy.disk_small !! path.
Proof.
  apply (quiet_tree_is_left_alone Toy.image Toy.decode Toy.img_format
           Toy.convert_rgb Toy.encode Toy.completion_order (λ tasks, reflexivity tasks)
           Toy.tree "root" [] 60 Toy.disk_small).
  vm_compute. reflexivity.
Defined.

(** The run that raises at [root/a] has appended [root]; the next run leaves
    [root] alone. *)
Lemma appended_folders_are_skipped_next_time_witness :
  Forall (spares_folder "root")
    (trace_of (toy_process Toy.tree "root" [] 60
                 (files_of (toy_process Toy.tree "root" [] 60 Toy.disk_corrupt)))).
Proof.
  apply (appended_folders_are_skipped_next_time Toy.image Toy.decode Toy.img_format
           Toy.convert_rgb Toy.encode Toy.completion_order (λ tasks, reflexivity tasks)
           Toy.tree "root" [] 60 Toy.disk_corrupt "root").
  - reflexivity.
  - reflexivity.
  - apply (bool_decide_unpack _). vm_compute. reflexivity.
Defined.
